(** * feature_websearch: crawlers and search, embedded and verified

    The development follows the three source files:

    - [websearch.py]: [WebScraper] (queue-driven crawl) and [SearchEngine]
      (substring search with context snippets);
    - [websearch_specific.py]: [scrape_portal] (targeted extraction of
      [div] texts);
    - [advanced/smart_search.py]: [OllamaWebCrawlerService] (recursive,
      thread-pool crawl into an SQLite table, and LLM-assisted search).

    The HTTP transport, the HTML parser, [urllib.parse], SQLite, the
    language model and [str.lower] are libraries the sources call; they
    appear here as parameters of the sections, and as small fixtures where
    a statement is evaluated on a concrete run. *)

From stdpp Require Import gmap strings list sorting.
From Stdlib Require Import ZArith Ascii.

Open Scope Z_scope.

(** ** Python strings *)

Module PyStr.

(** A Python string is kept as a string of the Standard Library: a
    sequence of characters, those of the code points below 256, the first
    128 of them the ASCII characters. *)

(** [len(s)] as a Python integer. *)
Definition len (s : string) : Z := Z.of_nat (String.length s).

(** The folding of ASCII letters: [A]..[Z] go to [a]..[z], every other
    character stays. It is what SQLite's [LIKE] compares by, and what
    [str.lower] does on ASCII text. *)
Definition lower_char (c : ascii) : ascii :=
  let n := nat_of_ascii c in
  if ((65 <=? n) && (n <=? 90))%nat then ascii_of_nat (n + 32) else c.

Fixpoint ascii_lower (s : string) : string :=
  match s with
  | EmptyString => EmptyString
  | String c s' => String (lower_char c) (ascii_lower s')
  end.

Fixpoint is_ascii (s : string) : bool :=
  match s with
  | EmptyString => true
  | String c s' => (nat_of_ascii c <? 128)%nat && is_ascii s'
  end.

(** [str.lower()]. Python lowers by the tables of the Unicode standard:
    the result can be longer than the text, and what a letter becomes can
    depend on its neighbours. So [lower] is taken as the interpreter gives
    it, and only two facts about it are used, which hold in every Python:
    on ASCII text it is [ascii_lower], and it leaves no text empty that
    was not. *)
Class StrMethods : Type := {
  lower : string → string;
  lower_ascii : ∀ s, is_ascii s = true → lower s = ascii_lower s;
  lower_nonempty : ∀ s, lower s = EmptyString → s = EmptyString
}.

(** [str.lower] on the characters of this development: beside the ASCII
    letters, the capitals [U+00C0]..[U+00DE] go 32 places up, the
    multiplication sign [U+00D7] apart. *)
Definition latin1_lower_char (c : ascii) : ascii :=
  let n := nat_of_ascii c in
  if (((65 <=? n) && (n <=? 90))
      || ((192 <=? n) && (n <=? 222) && negb (n =? 215)))%nat
  then ascii_of_nat (n + 32) else c.

Fixpoint latin1_lower (s : string) : string :=
  match s with
  | EmptyString => EmptyString
  | String c s' => String (latin1_lower_char c) (latin1_lower s')
  end.

Definition latin1 : StrMethods.
Proof.
  refine {| lower := latin1_lower; lower_ascii := _; lower_nonempty := _ |}.
  - intros s. induction s as [|c s IH]; [reflexivity|]. cbn [is_ascii].
    intros [Hc Hs]%andb_true_iff. cbn [latin1_lower ascii_lower].
    rewrite (IH Hs). f_equal.
    destruct c as [[] [] [] [] [] [] [] []]; try reflexivity; discriminate Hc.
  - intros [|c s]; [reflexivity | discriminate].
Defined.

(** Lowest offset at which [sub] starts in [s], if any. *)
Fixpoint find_from (sub s : string) : option nat :=
  if String.prefix sub s then Some 0%nat
  else match s with
       | EmptyString => None
       | String _ s' => S <$> find_from sub s'
       end.

(** [s.find(sub)]: the lowest index, [-1] when [sub] does not occur. *)
Definition find (s sub : string) : Z :=
  match find_from sub s with
  | Some i => Z.of_nat i
  | None => -1
  end.

(** [sub in s]. *)
Definition contains (sub s : string) : bool :=
  match find_from sub s with
  | Some _ => true
  | None => false
  end.

(** Index normalisation of a slice bound: negative bounds count from the
    end, everything is clamped to [0, len]. *)
Definition slice_bound (n i : Z) : Z :=
  if i <? 0 then Z.max 0 (i + n) else Z.min i n.

(** [s[a:b]]. *)
Definition slice (s : string) (a b : Z) : string :=
  let a' := slice_bound (len s) a in
  let b' := slice_bound (len s) b in
  String.substring (Z.to_nat a') (Z.to_nat (b' - a')) s.

(** Python's [str.strip()]: the white space is the characters
    [U+0009]..[U+000D], [U+001C]..[U+0020], [U+0085] and [U+00A0]. *)
Definition is_space (c : ascii) : bool :=
  let n := nat_of_ascii c in
  (((9 <=? n) && (n <=? 13)) || ((28 <=? n) && (n <=? 32))
   || (n =? 133) || (n =? 160))%nat.

Fixpoint lstrip (s : string) : string :=
  match s with
  | EmptyString => EmptyString
  | String c s' => if is_space c then lstrip s' else s
  end.

Fixpoint rstrip (s : string) : string :=
  match s with
  | EmptyString => EmptyString
  | String c s' =>
      match rstrip s' with
      | EmptyString => if is_space c then EmptyString else String c EmptyString
      | r => String c r
      end
  end.

Definition strip (s : string) : string := rstrip (lstrip s).

(** [s.split(sep)] for a one-character separator. *)
Fixpoint split (sep : ascii) (s : string) : list string :=
  match s with
  | EmptyString => [EmptyString]
  | String c s' =>
      if Ascii.eqb c sep then EmptyString :: split sep s'
      else match split sep s' with
           | [] => [String c EmptyString]
           | w :: ws => String c w :: ws
           end
  end.

(** Truth value of a string that may be [None]. *)
Definition truthy (s : option string) : bool :=
  match s with
  | Some s => negb (String.eqb s EmptyString)
  | None => false
  end.

(** [sub] occurs in [s] at offset [i]. *)
Definition occurs_at (sub s : string) (i : nat) : Prop :=
  ∃ pre post, s = pre +:+ sub +:+ post ∧ String.length pre = i.

End PyStr.

(** ** Python dictionaries, in insertion order *)

Module PyDict.

Definition dict (V : Type) : Type := list (string * V).

(** [d[k] = v]: overwrite in place, or append a new key. *)
Fixpoint set {V} (k : string) (v : V) (d : dict V) : dict V :=
  match d with
  | [] => [(k, v)]
  | (k', v') :: d' =>
      if String.eqb k k' then (k, v) :: d' else (k', v') :: set k v d'
  end.

(** [d.get(k)]. *)
Fixpoint get {V} (k : string) (d : dict V) : option V :=
  match d with
  | [] => None
  | (k', v') :: d' => if String.eqb k k' then Some v' else get k d'
  end.

(** The keys of a dictionary are pairwise distinct. *)
Definition wf {V} (d : dict V) : Prop := NoDup d.*1.

End PyDict.

(** ** [websearch.py]: [SearchEngine] *)

Module SearchEngine.
Import PyStr.

(** The snippet of lines 159-161 (and 167-169): fifty characters before the
    match, a hundred after, clamped to the content. *)
Definition snippet (content : string) (start_index end_index : Z) : string :=
  let snippet_start := Z.max 0 (start_index - 50) in
  let snippet_end := Z.min (len content) (end_index + 100) in
  "..." +:+ slice content snippet_start snippet_end +:+ "...".

Section WithStrMethods.
Context `{!StrMethods}.

(** One turn of the loop of [search] (lines 152-170); [query] is already
    lowered when the search is not case sensitive. *)
Definition search_item (query : string) (case_sensitive : bool)
    (results : PyDict.dict string) (item : string * string)
    : PyDict.dict string :=
  let '(url, content) := item in
  if negb case_sensitive then
    let content_lower := lower content in
    if contains query content_lower then
      let start_index := find content_lower query in
      let end_index := start_index + len query in
      PyDict.set url (snippet content start_index end_index) results
    else results
  else
    if contains query content then
      let start_index := find content query in
      let end_index := start_index + len query in
      PyDict.set url (snippet content start_index end_index) results
    else results.

(** [SearchEngine.search]. *)
Definition search (data : PyDict.dict string) (query : string)
    (case_sensitive : bool) : PyDict.dict string :=
  let query := if negb case_sensitive then lower query else query in
  foldl (search_item query case_sensitive) [] data.

(** The text in which the query is looked up. *)
Definition folded (case_sensitive : bool) (s : string) : string :=
  if case_sensitive then s else lower s.

(** What one record contributes to the results, both branches of the loop
    read as one: its snippet when the (already folded) query occurs. *)
Definition hit (query : string) (case_sensitive : bool) (content : string)
    : option string :=
  let text := folded case_sensitive content in
  if contains query text then
    Some (snippet content (find text query) (find text query + len query))
  else None.

End WithStrMethods.
End SearchEngine.

(** ** [websearch_specific.py]: the content part of [scrape_portal] *)

Module Portal.
Import PyStr.

(** The classes of the strings of a parse tree: [NavigableString] itself
    for text, and its subclasses for what the parser keeps apart from
    text. *)
Inductive string_class : Type :=
  | Text
  | CData
  | Comment
  | Declaration
  | Doctype
  | ProcessingInstruction
  | Script
  | Stylesheet
  | TemplateString
  | RubyTextString
  | RubyParenthesisString.

(** The strings [get_text] takes as the text of a [div]: those of the
    classes [NavigableString] and [CData], and of no subclass besides. *)
Definition is_text (cls : string_class) : bool :=
  match cls with
  | Text | CData => true
  | _ => false
  end.

(** The parse tree: strings and tags. *)
#[warnings="-register-all"] Inductive node : Type :=

  | NavigableString (cls : string_class) (text : string)
  | Tag (name : string) (children : list node).

(** The object [BeautifulSoup(...)] returns is itself the top tag of the
    tree, named [[document]]. *)
Definition BeautifulSoup (children : list node) : node :=
  Tag "[document]" children.

(** An element is designated by the child indices leading to it from the
    top; its parent is the element one index shorter. *)
Definition path : Type := list nat.

Fixpoint node_at (n : node) (p : path) : option node :=
  match p with
  | [] => Some n
  | i :: p' =>
      match n with
      | NavigableString _ _ => None
      | Tag _ children => children !! i ≫= λ c, node_at c p'
      end
  end.

(** The strings below an element that count as its text, in document
    order; the element is a [div], the one tag the source takes the text
    of. *)
Fixpoint all_strings (n : node) : list string :=
  match n with
  | NavigableString cls s => if is_text cls then [s] else []
  | Tag _ children => children ≫= all_strings
  end.

Definition newline : string := String (ascii_of_nat 10) EmptyString.

(** [tag.get_text(separator='\n', strip=True)] on a [div]: every string
    of its text stripped, the empty ones dropped, the rest joined by the
    separator. Comments and the sources of scripts and styles are no part
    of it. *)
Definition get_text (n : node) : string :=
  String.concat newline
    (filter (λ s, s ≠ EmptyString) (strip <$> all_strings n)).

(** The results of [f i c] for every child [c] and its index [i], counted
    from [i0], one after the other. *)
Section FlatImap.
Context {A B : Type} (f : nat → A → list B).

Fixpoint flat_imap_from (i0 : nat) (l : list A) : list B :=
  match l with
  | [] => []
  | x :: l' => f i0 x ++ flat_imap_from (S i0) l'
  end.

End FlatImap.

(** [soup.find_all(string=pred)]: the strings below [n], of whatever
    class, that satisfy [pred], in document order. *)
Fixpoint find_all_string (pred : string → bool) (n : node) : list path :=
  match n with
  | NavigableString _ s => if pred s then [[]] else []
  | Tag _ children =>
      flat_imap_from (λ i c, cons i <$> find_all_string pred c) 0 children
  end.

(** The elements strictly below [n], in document order. *)
Fixpoint descendants (n : node) : list node :=
  match n with
  | NavigableString _ _ => []
  | Tag _ children => children ≫= λ c, c :: descendants c
  end.

Definition is_tag (name : string) (n : node) : bool :=
  match n with
  | NavigableString _ _ => false
  | Tag name' _ => String.eqb name' name
  end.

(** [soup.find_all('div')]. *)
Definition find_all_tag (name : string) (n : node) : list node :=
  filter (λ d, is_tag name d = true) (descendants n).

(** Lines 50-56: from the parent of the element upwards, the first [div];
    [m] is the depth of the ancestor looked at, the parent of the top
    element is [None] and ends the loop. *)
Fixpoint climb (soup : node) (p : path) (m : nat) : option node :=
  match node_at soup (take m p) with
  | Some parent =>
      if is_tag "div" parent then Some parent
      else match m with
           | O => None
           | S m' => climb soup p m'
           end
  | None => None
  end.

Section WithStrMethods.
Context `{!StrMethods}.

(** The filter of line 49. *)
Definition mentions (search_text text : string) : bool :=
  negb (String.eqb text EmptyString)
  && contains (lower search_text) (lower text).

(** Lines 48-57. *)
Definition relevant_div_content (search_text : string) (soup : node)
    : gset string :=
  foldl (λ acc element,
           match climb soup element (Nat.pred (List.length element)) with
           | Some parent => {[ get_text parent ]} ∪ acc
           | None => acc
           end)
        ∅ (find_all_string (mentions search_text) soup).

(** Lines 60-65. *)
Definition all_div_content (soup : node) : gset string :=
  foldl (λ acc div_tag,
           let div_text := get_text div_tag in
           if String.eqb div_text EmptyString then acc
           else {[ div_text ]} ∪ acc)
        ∅ (find_all_tag "div" soup).

(** [scraped_data['content']] for a parsed page; the list is built from a
    set, so it is a set of texts, in no particular order. [search_text] is
    [None] or a string, and [if search_text:] takes both [None] and the
    empty string to the [else] branch. *)
Definition scrape_portal_content (search_text : option string) (soup : node)
    : gset string :=
  match search_text with
  | None => all_div_content soup
  | Some text =>
      if String.eqb text EmptyString then all_div_content soup
      else relevant_div_content text soup
  end.

(** *** The extraction as the specification words it *)

(** [d] is a block-level container ([div]) that encloses the element at
    [p], and sits at [q]. *)
Definition encloses (soup : node) (p q : path) (d : node) : Prop :=
  q `prefix_of` p ∧ q ≠ p ∧ node_at soup q = Some d ∧ is_tag "div" d = true.

(** ... and it is the nearest such container. *)
Definition nearest_container (soup : node) (p : path) (d : node) : Prop :=
  ∃ q, encloses soup p q d
       ∧ ∀ q' d', encloses soup p q' d' → (List.length q' ≤ List.length q)%nat.

(** [text] contains [focus] as a substring, letter case ignored. *)
Definition contains_ci (focus text : string) : Prop :=
  ∃ i, occurs_at (lower focus) (lower text) i.

(** With a focus string: the texts of the nearest enclosing container of
    each text node that contains it. Without one: the texts of all
    containers, the empty ones left out. *)
Definition targeted_extraction (focus : option string) (soup : node)
    (t : string) : Prop :=
  match focus with
  | Some f =>
      ∃ p cls s d, node_at soup p = Some (NavigableString cls s)
                   ∧ is_text cls = true
                   ∧ contains_ci f s
                   ∧ nearest_container soup p d
                   ∧ t = get_text d
  | None =>
      t ≠ EmptyString
      ∧ ∃ q d, node_at soup q = Some d ∧ is_tag "div" d = true ∧ t = get_text d
  end.

(** *** The extraction as the code has it *)

(** With a focus string the code looks at every string of the tree,
    whatever its class. *)
Definition string_extraction (focus : option string) (soup : node)
    (t : string) : Prop :=
  match focus with
  | Some f =>
      ∃ p cls s d, node_at soup p = Some (NavigableString cls s)
                   ∧ contains_ci f s
                   ∧ nearest_container soup p d
                   ∧ t = get_text d
  | None =>
      t ≠ EmptyString
      ∧ ∃ q d, node_at soup q = Some d ∧ is_tag "div" d = true ∧ t = get_text d
  end.

(** Every string of the tree is text. *)
Definition text_only (soup : node) : Prop :=
  ∀ p cls s, node_at soup p = Some (NavigableString cls s) → is_text cls = true.

End WithStrMethods.

(** A focus string is present when one is given and it is not empty. *)
Definition focus_of (search_text : option string) : option string :=
  match search_text with
  | Some EmptyString => None
  | other => other
  end.

End Portal.

(** ** The libraries the crawlers call *)

Module Lib.

(** What [requests.get(url, ...)] does: it raises a [RequestException]
    (timeout, connection failure, unusable URL), or returns a response. *)
Inductive response : Type :=
  | RequestException
  | Response (status_code : Z) (text : string).

(** [response.raise_for_status()] raises [HTTPError] for the statuses 4xx
    and 5xx ([websearch.py], line 46). *)
Definition raise_for_status (status_code : Z) : bool :=
  (400 <=? status_code) && (status_code <? 600).

(** The fields of [urlparse(url)] the sources read. *)
Record ParseResult : Type := { scheme : string; netloc : string; path : string }.

(** A row of the table [web_pages] ([smart_search.py], lines 41-47), by
    the columns the crawler writes; [title] can be NULL. *)
Record Row : Type := {
  url : string;
  content : string;
  title : option string;
  images : string
}.

(** What [requests.post] to the model server does; [json] is the value
    under the key [response] of the decoded body: [None] when the body
    does not decode, [Some None] when the key is missing. *)
Inductive post_response : Type :=
  | PostException
  | PostResponse (status_code : Z) (json : option (option string)).


(** The model gave no completion: the request raised, the status is not
    200, or the body holds no text under [response]. *)
Definition unavailable (r : post_response) : Prop :=
  match r with
  | PostException => True
  | PostResponse status_code json =>
      status_code ≠ 200 ∨ json = None ∨ json = Some None
      ∨ json = Some (Some EmptyString)
  end.

Class Libraries : Type := {
  (** the [n]-th request of the process, sent to [url] *)
  requests_get : nat → string → response;
  (** [urllib.parse]; [None] stands for [ValueError] *)
  urlparse : string → option ParseResult;
  urljoin : string → string → option string;
  (** [BeautifulSoup(html, 'html.parser')], by what the sources read from
      it: the [href] of every anchor that has one, *)
  soup_hrefs : string → list string;
  (** the stripped strings joined by newlines, [script] and [style] removed, *)
  soup_stripped_text : string → string;
  (** [get_text()] of every [p] and [div], *)
  soup_block_texts : string → list string;
  (** [img.get('src')] of every [img], *)
  soup_img_srcs : string → list (option string);
  (** and [soup.title], then its [.string]. *)
  soup_title : string → option (option string);
  (** the [n]-th completion request: model, prompt, [num_predict] *)
  requests_post : nat → string → string → Z → post_response;
  (** SQLite on [SELECT ... FROM web_pages WHERE <text> LIMIT ?] when the
      text is not a disjunction of plain [LIKE] tests; [None] stands for
      an exception *)
  sqlite_where : string → Z → list Row → option (list Row)
}.

End Lib.

(** ** [websearch.py]: [WebScraper] *)

Module WebScraper.
Import PyStr Lib.

(** The attributes [__init__] sets once. *)
Record scraper : Type := {
  start_url : string;
  domain : string;
  max_depth : Z
}.

(** The attributes [crawl] changes, and two counters that only record
    what happened: how many requests were sent, and which tasks were
    handed to the fetcher at line 108, in order. *)
Record state : Type := {
  visited : gset string;
  queue : list (string * Z);
  scraped_data : PyDict.dict string;
  requests : nat;
  dispatched : list (string * Z)
}.

Section WithLibraries.
Context `{!Libraries}.

(** [WebScraper(start_url, max_depth, ...)]. *)
Definition new (start_url : string) (max_depth : Z) : option (scraper * state) :=
  parsed ← urlparse start_url;
  Some ({| start_url := start_url; domain := netloc parsed; max_depth := max_depth |},
        {| visited := ∅; queue := [(start_url, 0)]; scraped_data := [];
           requests := 0; dispatched := [] |}).

(** [_get_page_content], as the [n]-th request. *)
Definition _get_page_content (n : nat) (url : string) : option string :=
  match requests_get n url with
  | RequestException => None
  | Response status_code text =>
      if raise_for_status status_code then None else Some text
  end.

(** The loop of [_extract_links] (lines 65-69) over the anchors' [href]s. *)
Fixpoint extract_hrefs (self : scraper) (visited : gset string)
    (current_url : string) (hrefs : list string) : option (list string) :=
  match hrefs with
  | [] => Some []
  | href :: hrefs' =>
      absolute_url ← urljoin current_url href;
      parsed ← urlparse absolute_url;
      links ← extract_hrefs self visited current_url hrefs';
      Some (if String.eqb (netloc parsed) (domain self)
               && bool_decide (absolute_url ∉ visited)
            then absolute_url :: links else links)
  end.

Definition _extract_links (self : scraper) (visited : gset string)
    (html_content current_url : string) : option (list string) :=
  extract_hrefs self visited current_url (soup_hrefs html_content).

(** [scrape_page], which fetches the page again, as the [n]-th request. *)
Definition scrape_page (n : nat) (url : string) : option string :=
  let content := _get_page_content n url in
  match content with
  | Some html => if truthy content then Some (soup_stripped_text html) else None
  | None => None
  end.

(** Lines 111-112: the text is stored when there is one. *)
Definition store (current_url : string) (text_content : option string)
    (scraped_data : PyDict.dict string) : PyDict.dict string :=
  match text_content with
  | Some text =>
      if truthy text_content then PyDict.set current_url text scraped_data
      else scraped_data
  | None => scraped_data
  end.

(** One turn of the loop of [crawl] (lines 99-120) on the task popped from
    the queue; [None] when an exception leaves the loop. *)
Definition crawl_task (self : scraper) (st : state)
    (current_url : string) (depth : Z) (rest : list (string * Z))
    : option state :=
  if bool_decide (current_url ∈ visited st) || (max_depth self <? depth) then
    Some {| visited := visited st; queue := rest;
            scraped_data := scraped_data st;
            requests := requests st; dispatched := dispatched st |}
  else
    let visited' := {[ current_url ]} ∪ visited st in
    let dispatched' := dispatched st ++ [(current_url, depth)] in
    let page_content := _get_page_content (requests st) current_url in
    match page_content with
    | Some html =>
        if truthy page_content then
          let text_content := scrape_page (S (requests st)) current_url in
          let scraped_data' := store current_url text_content (scraped_data st) in
          if depth <? max_depth self then
            links ← _extract_links self visited' html current_url;
            Some {| visited := visited';
                    queue := rest ++ ((λ link, (link, depth + 1)) <$>
                                      filter (λ link, link ∉ visited') links);
                    scraped_data := scraped_data';
                    requests := S (S (requests st)); dispatched := dispatched' |}
          else
            Some {| visited := visited'; queue := rest;
                    scraped_data := scraped_data';
                    requests := S (S (requests st)); dispatched := dispatched' |}
        else
          Some {| visited := visited'; queue := rest;
                  scraped_data := scraped_data st;
                  requests := S (requests st); dispatched := dispatched' |}
    | None =>
        Some {| visited := visited'; queue := rest;
                scraped_data := scraped_data st;
                requests := S (requests st); dispatched := dispatched' |}
    end.

(** One turn of [while self.queue:]. *)
Definition crawl_step (self : scraper) (st : state) : option state :=
  match queue st with
  | [] => Some st
  | (current_url, depth) :: rest => crawl_task self st current_url depth rest
  end.

(** How a run of [crawl] ends. *)
Inductive outcome : Type :=
  | Finished (final : state)
  | Raised
  | Running (st : state).

(** [crawl], for at most [turns] turns of its loop. *)
Fixpoint crawl (turns : nat) (self : scraper) (st : state) : outcome :=
  match queue st with
  | [] => Finished st
  | _ :: _ =>
      match turns with
      | O => Running st
      | S turns' =>
          match crawl_step self st with
          | Some st' => crawl turns' self st'
          | None => Raised
          end
      end
  end.

(** The states a run goes through, from the state [st0] it starts in. *)
Inductive reachable (self : scraper) (st0 : state) : state → Prop :=
  | reachable_start : reachable self st0 st0
  | reachable_turn st st' :
      reachable self st0 st → queue st ≠ [] → crawl_step self st = Some st' →
      reachable self st0 st'.

(** [url] belongs to the crawl domain. *)
Definition in_domain (self : scraper) (url : string) : Prop :=
  ∃ parsed, urlparse url = Some parsed ∧ netloc parsed = domain self.

(** [url] is the seed as given, or the absolute URL of an anchor of a page
    of the crawl, as [urljoin] returned it. *)
Inductive discovered (self : scraper) : string → Prop :=
  | discovered_seed : discovered self (start_url self)
  | discovered_link page n html href url :
      discovered self page →
      _get_page_content n page = Some html →
      href ∈ soup_hrefs html →
      urljoin page href = Some url →
      discovered self url.

(** The fetch of line 108 gave nothing to work on: it failed, or the body
    is empty. *)
Definition fetch_gave_nothing (n : nat) (url : string) : Prop :=
  _get_page_content n url = None ∨ _get_page_content n url = Some EmptyString.

(** The state after at most [n] turns of the loop. *)
Fixpoint turns (n : nat) (self : scraper) (st : state) : state :=
  match n with
  | O => st
  | S n' =>
      match queue st with
      | [] => st
      | _ :: _ =>
          match crawl_step self st with
          | Some st' => turns n' self st'
          | None => st
          end
      end
  end.

(** The host of [url] is not the host of the seed. *)
Definition host_differs (self : scraper) (url : string) : Prop :=
  ∀ parsed, urlparse url = Some parsed → netloc parsed ≠ domain self.

(** What holds of the state all along a run: the tasks in the queue and
    the tasks handed to the fetcher are discovered URLs of the crawl
    domain within the depth bound (the seed task apart, which is queued at
    depth 0 whatever the bound is); the visited set is the set of URLs
    handed to the fetcher, each handed once; only those have a record. *)
Definition consistent (self : scraper) (st : state) : Prop :=
  (∀ url depth, (url, depth) ∈ queue st →
     discovered self url ∧ in_domain self url ∧ 0 ≤ depth
     ∧ (depth ≤ max_depth self ∨ (url, depth) = (start_url self, 0)))
  ∧ (∀ url depth, (url, depth) ∈ dispatched st →
       discovered self url ∧ in_domain self url ∧ 0 ≤ depth ≤ max_depth self)
  ∧ (∀ url, url ∈ visited st ↔ url ∈ (dispatched st).*1)
  ∧ NoDup (dispatched st).*1
  ∧ (∀ url, url ∈ (scraped_data st).*1 → url ∈ visited st).

End WithLibraries.
End WebScraper.

(** ** [advanced/smart_search.py]: [OllamaWebCrawlerService] *)

Module Ollama.
Import PyStr Lib.

(** The attributes [__init__] sets once. *)
Record service : Type := {
  model : string;
  base_url : string;
  base_domain : string;
  max_depth : Z
}.

(** A call of [crawl_page] running on some worker thread, by the line it
    is about to execute. The calls share [visited_urls] and the table, so
    the places where a call reads or writes them are kept apart. *)
Inductive call : Type :=
  | Called (url : string) (current_depth : Z)
      (** submitted, line 127 is next *)
  | Fetching (url : string) (current_depth : Z)
      (** past the guard, line 131 is next *)
  | Storing (url : string) (current_depth : Z) (html : string)
      (** the response is in, lines 133-151 are next *)
  | Marking (url : string) (current_depth : Z) (html : string)
      (** the row is written, line 153 is next *)
  | Submitting (url : string) (current_depth : Z) (links : list string).
      (** in the comprehension of lines 164-167, [links] still to examine *)

(** The shared state, and two counters that only record what happened:
    how many requests were sent, and which URLs were requested at which
    depth. *)
Record state : Type := {
  visited_urls : gset string;
  web_pages : list Row;
  calls : list call;
  requests : nat;
  fetched : list (string * Z)
}.

(** [INSERT OR REPLACE INTO web_pages]: [url] is the primary key. *)
Definition insert_or_replace (row : Row) (table : list Row) : list Row :=
  filter (λ r, url r ≠ url row) table ++ [row].

Definition quote_char : ascii := ascii_of_nat 39.
Definition dquote : string := String (ascii_of_nat 34) EmptyString.

Definition has_quote (s : string) : bool :=
  contains (String quote_char EmptyString) s.

(** SQLite's [LIKE]: [%] stands for any run of characters, [_] for any one
    character, ASCII letters match without regard to case. *)
Fixpoint like (pattern s : string) : bool :=
  match pattern with
  | EmptyString => String.eqb s EmptyString
  | String p pattern' =>
      if Ascii.eqb p "%" then
        (fix any_run (s : string) : bool :=
           like pattern' s
           || match s with
              | EmptyString => false
              | String _ s' => any_run s'
              end) s
      else
        match s with
        | EmptyString => false
        | String c s' =>
            (Ascii.eqb p "_" || Ascii.eqb (lower_char p) (lower_char c))
            && like pattern' s'
        end
  end.

(** [LIMIT ?]: a negative bound means no bound. *)
Definition sql_limit {A} (limit : Z) (rows : list A) : list A :=
  if limit <? 0 then rows else take (Z.to_nat limit) rows.

(** The integers [sqlite3] binds to a parameter: those of 64 bits. On any
    other it raises [OverflowError]. *)
Definition sqlite_integer (n : Z) : bool :=
  (- 2 ^ 63 <=? n) && (n <? 2 ^ 63).

(** SQLite's bound on the depth of an expression: a chain of a thousand
    [OR]-ed tests or more is rejected. *)
Definition max_or_terms : nat := 999.

Section WithLibraries.
Context `{!Libraries}.

(** [OllamaWebCrawlerService(base_url, model, max_depth)]; the table is
    the one the database file holds at that time. *)
Definition new (base_url model : string) (max_depth : Z) (table : list Row)
    : option (service * state) :=
  parsed ← urlparse base_url;
  Some ({| model := model; base_url := base_url;
           base_domain := netloc parsed; max_depth := max_depth |},
        {| visited_urls := ∅; web_pages := table; calls := [];
           requests := 0; fetched := [] |}).

(** [ollama_request], as the [n]-th completion request. *)
Definition ollama_request (self : service) (n : nat) (prompt : string)
    (max_tokens : Z) : string :=
  match requests_post n (model self) prompt max_tokens with
  | PostException => EmptyString
  | PostResponse status_code json =>
      if status_code =? 200 then
        match json with
        | Some (Some text) => text
        | Some None => EmptyString
        | None => EmptyString
        end
      else EmptyString
  end.

Definition sanitize_url (url : string) : string :=
  match urlparse url with
  | Some parsed_url =>
      let base_url := scheme parsed_url +:+ "://" +:+ netloc parsed_url in
      match urljoin base_url (path parsed_url) with
      | Some joined => joined
      | None => url
      end
  | None => url
  end.

Definition is_valid_url (self : service) (visited_urls : gset string)
    (url : string) : bool :=
  match urlparse url with
  | Some parsed_url =>
      (String.eqb (scheme parsed_url) "http"
       || String.eqb (scheme parsed_url) "https")
      && String.eqb (netloc parsed_url) (base_domain self)
      && bool_decide (url ∉ visited_urls)
  | None => false
  end.

(** [extract_content]; [None] when [urljoin] raises on an image source. *)
Definition extract_content (url html : string) : option Row :=
  let text_content := String.concat " " (soup_block_texts html) in
  let images := omap (λ src, if truthy src then src else None) (soup_img_srcs html) in
  images ← mapM (urljoin url) images;
  let title := match soup_title html with
               | Some title => title
               | None => Some "No Title"
               end in
  Some {| url := url; content := text_content; title := title;
          images := String.concat "," images |}.

(** The state after the call at position [i] has left, or has become
    [c']. *)
Definition leave (st : state) (i : nat) : list call := delete i (calls st).
Definition become (st : state) (i : nat) (c' : call) : list call :=
  <[i := c']> (calls st).

(** The next move of one call of [crawl_page] (lines 127-173). *)
Definition crawl_page_step (self : service) (st : state) (i : nat) (c : call)
    : state :=
  match c with
  | Called url current_depth =>
      if (max_depth self <? current_depth)
         || negb (is_valid_url self (visited_urls st) url)
      then {| visited_urls := visited_urls st; web_pages := web_pages st;
              calls := leave st i;
              requests := requests st; fetched := fetched st |}
      else {| visited_urls := visited_urls st; web_pages := web_pages st;
              calls := become st i (Fetching url current_depth);
              requests := requests st; fetched := fetched st |}
  | Fetching url current_depth =>
      let after :=
        match requests_get (requests st) url with
        | RequestException => leave st i
        | Response status_code text =>
            if raise_for_status status_code then leave st i
            else become st i (Storing url current_depth text)
        end in
      {| visited_urls := visited_urls st; web_pages := web_pages st;
         calls := after;
         requests := S (requests st);
         fetched := fetched st ++ [(url, current_depth)] |}
  | Storing url current_depth html =>
      match extract_content url html with
      | Some page_data =>
          {| visited_urls := visited_urls st;
             web_pages := insert_or_replace page_data (web_pages st);
             calls := become st i (Marking url current_depth html);
             requests := requests st; fetched := fetched st |}
      | None =>
          {| visited_urls := visited_urls st; web_pages := web_pages st;
             calls := leave st i;
             requests := requests st; fetched := fetched st |}
      end
  | Marking url current_depth html =>
      let after :=
        if current_depth <? max_depth self then
          match mapM (urljoin url) (soup_hrefs html) with
          | Some links => become st i (Submitting url current_depth links)
          | None => leave st i
          end
        else leave st i in
      {| visited_urls := {[ url ]} ∪ visited_urls st;
         web_pages := web_pages st; calls := after;
         requests := requests st; fetched := fetched st |}
  | Submitting url current_depth [] =>
      {| visited_urls := visited_urls st; web_pages := web_pages st;
         calls := leave st i;
         requests := requests st; fetched := fetched st |}
  | Submitting url current_depth (link :: links) =>
      let rest := become st i (Submitting url current_depth links) in
      {| visited_urls := visited_urls st; web_pages := web_pages st;
         calls := if is_valid_url self (visited_urls st) link
                  then rest ++ [Called link (current_depth + 1)]
                  else rest;
         requests := requests st; fetched := fetched st |}
  end.

(** The scheduler lets the call at position [i] move. *)
Definition crawl_step (self : service) (i : nat) (st : state) : state :=
  match calls st !! i with
  | Some c => crawl_page_step self st i c
  | None => st
  end.

(** [start_crawling]: the first call. *)
Definition start_crawling (self : service) (st : state) : state :=
  {| visited_urls := visited_urls st; web_pages := web_pages st;
     calls := [Called (base_url self) 0];
     requests := requests st; fetched := fetched st |}.

(** The run under a schedule, the moves given in order. *)
Definition run (self : service) (schedule : list nat) (st : state) : state :=
  foldl (λ st i, crawl_step self i st) (start_crawling self st) schedule.

Definition url_of (c : call) : string :=
  match c with
  | Called url _ | Fetching url _ | Storing url _ _
  | Marking url _ _ | Submitting url _ _ => url
  end.

Definition depth_of (c : call) : Z :=
  match c with
  | Called _ d | Fetching _ d | Storing _ d _
  | Marking _ d _ | Submitting _ d _ => d
  end.

(** [url] passes the scheme and domain tests of [is_valid_url]. *)
Definition in_scope (self : service) (url : string) : Prop :=
  ∃ parsed, urlparse url = Some parsed
            ∧ (scheme parsed = "http" ∨ scheme parsed = "https")
            ∧ netloc parsed = base_domain self.

(** The host of [url] is not the host of the seed. *)
Definition host_differs (self : service) (url : string) : Prop :=
  ∀ parsed, urlparse url = Some parsed → netloc parsed ≠ base_domain self.

(** [html] is the body of a response to a request for [url] that
    [raise_for_status] lets through. *)
Definition fetched_from (url html : string) : Prop :=
  ∃ n status_code, requests_get n url = Response status_code html
                   ∧ raise_for_status status_code = false.

(** [url] is the seed as given, or the absolute URL of an anchor of a page
    of the crawl, as [urljoin] returned it. *)
Inductive discovered (self : service) : string → Prop :=
  | discovered_seed : discovered self (base_url self)
  | discovered_link page html href url :
      discovered self page →
      fetched_from page html →
      href ∈ soup_hrefs html →
      urljoin page href = Some url →
      discovered self url.

(** The table has a row for [u]. *)
Definition stored (table : list Row) (u : string) : Prop := u ∈ url <$> table.

(** What holds of a call, by the line it has reached. *)
Definition call_ok (self : service) (table : list Row) (c : call) : Prop :=
  discovered self (url_of c) ∧ 0 ≤ depth_of c ∧
  match c with
  | Called u d =>
      (in_scope self u ∧ d ≤ max_depth self) ∨ (u, d) = (base_url self, 0)
  | Fetching u d => in_scope self u ∧ d ≤ max_depth self
  | Storing u d html =>
      in_scope self u ∧ d ≤ max_depth self ∧ fetched_from u html
  | Marking u d html =>
      in_scope self u ∧ d ≤ max_depth self ∧ fetched_from u html
      ∧ stored table u
  | Submitting u d links =>
      in_scope self u ∧ d < max_depth self
      ∧ ∀ link, link ∈ links → discovered self link
  end.

(** What holds of the shared state all along a run, under every
    schedule. *)
Definition consistent (self : service) (st : state) : Prop :=
  (∀ c, c ∈ calls st → call_ok self (web_pages st) c)
  ∧ (∀ u d, (u, d) ∈ fetched st →
       discovered self u ∧ in_scope self u ∧ 0 ≤ d ≤ max_depth self)
  ∧ (∀ u, u ∈ visited_urls st →
       discovered self u ∧ in_scope self u ∧ stored (web_pages st) u).

(** *** [semantic_search] *)

Record result : Type := {
  r_url : string;
  r_title : option string;
  r_content : string;
  r_images : list string;
  r_relevance : string
}.

Definition newline : string := String (ascii_of_nat 10) EmptyString.

Definition intent_prompt (query : string) : string :=
  newline +:+
  "            Analyze the following search query and extract key semantic search terms:"
  +:+ newline +:+ "            Query: " +:+ query +:+ newline
  +:+ "            " +:+ newline +:+
  "            Provide a comma-separated list of key search terms that capture the query's intent."
  +:+ newline +:+ "            ".

(** [str(x)] inside an f-string, for a value that can be [None]. *)
Definition format (x : option string) : string := default "None" x.

Definition context_prompt (query : string) (row : Row) : string :=
  newline +:+
  "                Evaluate the relevance of this content to the query: "
  +:+ dquote +:+ query +:+ dquote +:+ newline
  +:+ "                " +:+ newline
  +:+ "                Content Details:" +:+ newline
  +:+ "                Title: " +:+ format (title row) +:+ newline
  +:+ "                Content Snippet: " +:+ slice (content row) 0 500 +:+ newline
  +:+ "                " +:+ newline
  +:+ "                Provide a brief relevance assessment and key insights."
  +:+ newline +:+ "                ".

(** The terms of lines 207-209: the pieces between commas, stripped, the
    empty ones left out. *)
Definition search_terms (semantic_terms : string) : list string :=
  strip <$> filter (λ term, strip term ≠ EmptyString) (split "," semantic_terms).

(** The condition text of lines 206-210. *)
Definition search_conditions (terms : list string) : string :=
  String.concat " OR " ((λ term, "content LIKE '%" +:+ term +:+ "%'") <$> terms).

(** [cursor.execute] and [fetchall] on the statement of lines 212-217;
    [None] when it raises. With no term the text after [WHERE] is empty
    and SQLite rejects the statement; a limit that is no 64-bit integer
    cannot be bound; a term with a quote character changes the shape of
    the statement, which is then left to SQLite; too long a chain of
    tests is rejected; otherwise the rows are those whose content is
    [LIKE] one of the terms. *)
Definition execute_select (terms : list string) (limit : Z)
    (table : list Row) : option (list Row) :=
  match terms with
  | [] => None
  | _ :: _ =>
      if negb (sqlite_integer limit) then None
      else if existsb has_quote terms
      then sqlite_where (search_conditions terms) limit table
      else if (max_or_terms <? List.length terms)%nat then None
      else Some (sql_limit limit
                   (filter (λ row, existsb (λ term, like ("%" +:+ term +:+ "%")
                                                      (content row)) terms = true)
                           table))
  end.

(** The loop of lines 223-242; the [k]-th result asks the model as request
    [n + k]. *)
Fixpoint contextualize (self : service) (n : nat) (query : string)
    (results : list Row) : list result :=
  match results with
  | [] => []
  | row :: results' =>
      let context_response :=
        ollama_request self n (context_prompt query row) 200 in
      {| r_url := url row; r_title := title row; r_content := content row;
         r_images := if String.eqb (images row) EmptyString then []
                     else split "," (images row);
         r_relevance := context_response |}
      :: contextualize self (S n) query results'
  end.

(** The body of the [try] of [semantic_search]; [None] when it raises. *)
Definition semantic_search_body (self : service) (n : nat) (query : string)
    (limit : Z) (table : list Row) : option (list result) :=
  let semantic_terms := ollama_request self n (intent_prompt query) 100 in
  results ← execute_select (search_terms semantic_terms) limit table;
  Some (contextualize self (S n) query results).

(** [semantic_search(query, limit)], its first completion request being
    the [n]-th. *)
Definition semantic_search (self : service) (n : nat) (query : string)
    (limit : Z) (table : list Row) : list result :=
  match semantic_search_body self n query limit table with
  | Some contextualized_results => contextualized_results
  | None => []
  end.

(** *** The fallback as the specification words it *)

(** The stored records whose content contains the raw query string. *)
Definition raw_query_matches (query : string) (table : list Row) : list Row :=
  filter (λ row, contains query (content row) = true) table.

End WithLibraries.
End Ollama.

(** ** A small web to run the crawlers on *)

Module Fixture.
Import PyStr Lib.

(** The part of [s] before the first character of [stops], and the rest. *)
Fixpoint break_at (stops : list ascii) (s : string) : string * string :=
  match s with
  | EmptyString => (EmptyString, EmptyString)
  | String c s' =>
      if bool_decide (c ∈ stops) then (EmptyString, s)
      else let '(before, rest) := break_at stops s' in (String c before, rest)
  end.

(** [s] without its first [n] characters. *)
Definition drop_chars (n : nat) (s : string) : string :=
  String.substring n (String.length s - n) s.

(** [urlparse] on URLs of the shape [scheme://netloc/path?query#fragment];
    a string without [://] has an empty scheme and an empty netloc. *)
Definition urlparse (url : string) : option ParseResult :=
  match find_from "://" url with
  | Some i =>
      let '(net, rest) := break_at ["/"; "?"; "#"]%char (drop_chars (i + 3) url) in
      let '(pth, _) := break_at ["?"; "#"]%char rest in
      Some {| scheme := String.substring 0 i url; netloc := net; path := pth |}
  | None =>
      let '(pth, _) := break_at ["?"; "#"]%char url in
      Some {| scheme := EmptyString; netloc := EmptyString; path := pth |}
  end.

(** [urljoin] on a base of that shape and a reference that is an absolute
    URL, empty, or an absolute path. *)
Definition urljoin (base ref : string) : option string :=
  if contains "://" ref then Some ref
  else if String.eqb ref EmptyString then Some base
  else match find_from "://" base with
       | Some i =>
           let '(net, _) := break_at ["/"; "?"; "#"]%char (drop_chars (i + 3) base) in
           Some (String.substring 0 i base +:+ "://" +:+ net
                 +:+ (if String.prefix "/" ref then ref else "/" +:+ ref))
       | None => Some ref
       end.

(** A site: what each URL answers, and for each page body the anchors and
    the text an HTML parser finds in it. *)
Record site : Type := {
  answers : list (string * response);
  anchors : list (string * list string);
  texts : list (string * string)
}.

Definition lookup_or {A} (d : A) (k : string) (table : list (string * A)) : A :=
  default d (PyDict.get k table).

(** The libraries over a site; the model server is down. *)
Definition libraries (w : site) : Libraries := {|
  requests_get := λ _ url, lookup_or RequestException url (answers w);
  Lib.urlparse := urlparse;
  Lib.urljoin := urljoin;
  soup_hrefs := λ html, lookup_or [] html (anchors w);
  soup_stripped_text := λ html, lookup_or EmptyString html (texts w);
  soup_block_texts := λ html, [lookup_or EmptyString html (texts w)];
  soup_img_srcs := λ _, [];
  soup_title := λ _, None;
  requests_post := λ _ _ _ _, PostException;
  sqlite_where := λ _ _ _, None
|}.

(** The scenario of the specification: a seed page with two links into the
    domain and one out of it; here [/b] answers 500. *)
Definition example_com : site := {|
  answers := [("http://example.com/", Response 200 "<a href=/a>A</a><a href=/b>B</a><a href=http://other.com/x>X</a>");
              ("http://example.com/a", Response 200 "<p>page a</p>");
              ("http://example.com/b", Response 500 "<p>server error</p>");
              ("http://other.com/x", Response 200 "<p>elsewhere</p>")];
  anchors := [("<a href=/a>A</a><a href=/b>B</a><a href=http://other.com/x>X</a>",
               ["/a"; "/b"; "http://other.com/x"])];
  texts := [("<a href=/a>A</a><a href=/b>B</a><a href=http://other.com/x>X</a>", "A
B
X");
            ("<p>page a</p>", "page a");
            ("<p>server error</p>", "server error");
            ("<p>elsewhere</p>", "elsewhere")]
|}.

(** A seed page that links to the same page twice. *)
Definition twice_linked : site := {|
  answers := [("http://example.com/", Response 200 "<a href=/a>A</a><a href=/a>again</a>");
              ("http://example.com/a", Response 200 "<p>page a</p>")];
  anchors := [("<a href=/a>A</a><a href=/a>again</a>", ["/a"; "/a"])];
  texts := [("<a href=/a>A</a><a href=/a>again</a>", "A
again");
            ("<p>page a</p>", "page a")]
|}.

(** A seed page that links to one page under two query strings. *)
Definition two_queries : site := {|
  answers := [("http://example.com/", Response 200 "<a href=/a?x=1>1</a><a href=/a?x=2>2</a>");
              ("http://example.com/a?x=1", Response 200 "<p>page a</p>");
              ("http://example.com/a?x=2", Response 200 "<p>page a</p>")];
  anchors := [("<a href=/a?x=1>1</a><a href=/a?x=2>2</a>", ["/a?x=1"; "/a?x=2"])];
  texts := [("<a href=/a?x=1>1</a><a href=/a?x=2>2</a>", "1
2");
            ("<p>page a</p>", "page a")]
|}.


(** A seed page with a link into the domain under another scheme. *)
Definition ftp_link : site := {|
  answers := [("http://example.com/", Response 200 "<a href=ftp://example.com/file>file</a>")];
  anchors := [("<a href=ftp://example.com/file>file</a>", ["ftp://example.com/file"])];
  texts := [("<a href=ftp://example.com/file>file</a>", "file")]
|}.

(** No URL answers: every request raises. *)
Definition unreachable : site := {| answers := []; anchors := []; texts := [] |}.

(** A table with one stored page. *)
Definition one_page : list Row :=
  [{| url := "http://example.com/"; content := "hello world";
      title := Some "Home"; images := EmptyString |}].

(** The example site, every page of which shows two images, an [img]
    without source and one with an empty source. *)
Definition gallery_web : Libraries := {|
  requests_get := @requests_get (libraries example_com);
  Lib.urlparse := urlparse;
  Lib.urljoin := urljoin;
  soup_hrefs := @soup_hrefs (libraries example_com);
  soup_stripped_text := @soup_stripped_text (libraries example_com);
  soup_block_texts := @soup_block_texts (libraries example_com);
  soup_img_srcs := λ _, [Some "/a.png"; None; Some EmptyString; Some "/b.png"];
  soup_title := λ _, Some (Some "Gallery");
  requests_post := λ _ _ _ _, PostException;
  sqlite_where := λ _ _ _, None
|}.

(** The example site beside a model server that completes every prompt
    with the same two terms. *)
Definition answering_web : Libraries := {|
  requests_get := @requests_get (libraries example_com);
  Lib.urlparse := urlparse;
  Lib.urljoin := urljoin;
  soup_hrefs := @soup_hrefs (libraries example_com);
  soup_stripped_text := @soup_stripped_text (libraries example_com);
  soup_block_texts := @soup_block_texts (libraries example_com);
  soup_img_srcs := λ _, [];
  soup_title := λ _, None;
  requests_post := λ _ _ _ _, PostResponse 200 (Some (Some "Hello, planet"));
  sqlite_where := λ _ _ _, None
|}.

Definition example_web : Libraries := libraries example_com.
Definition dead_web : Libraries := libraries unreachable.
Definition twice_linked_web : Libraries := libraries twice_linked.
Definition two_queries_web : Libraries := libraries two_queries.
Definition ftp_link_web : Libraries := libraries ftp_link.

(** The objects the constructors build for the seed
    [http://example.com/] and a depth bound of 1. *)
Definition example_scraper : WebScraper.scraper :=
  {| WebScraper.start_url := "http://example.com/";
     WebScraper.domain := "example.com"; WebScraper.max_depth := 1 |}.

Definition example_scraper_state : WebScraper.state :=
  {| WebScraper.visited := ∅;
     WebScraper.queue := [("http://example.com/", 0)];
     WebScraper.scraped_data := []; WebScraper.requests := 0;
     WebScraper.dispatched := [] |}.

Definition example_service : Ollama.service :=
  {| Ollama.model := "llama2"; Ollama.base_url := "http://example.com/";
     Ollama.base_domain := "example.com"; Ollama.max_depth := 1 |}.

Definition example_service_state : Ollama.state :=
  {| Ollama.visited_urls := ∅; Ollama.web_pages := []; Ollama.calls := [];
     Ollama.requests := 0; Ollama.fetched := [] |}.

(** The same for the seed [ftp://example.com/]. *)
Definition ftp_scraper : WebScraper.scraper :=
  {| WebScraper.start_url := "ftp://example.com/";
     WebScraper.domain := "example.com"; WebScraper.max_depth := 1 |}.

Definition ftp_scraper_state : WebScraper.state :=
  {| WebScraper.visited := ∅;
     WebScraper.queue := [("ftp://example.com/", 0)];
     WebScraper.scraped_data := []; WebScraper.requests := 0;
     WebScraper.dispatched := [] |}.


End Fixture.

(** ** [WebScraper.crawl]: what a run is measured by *)

Module CrawlRun.
Import PyStr Lib WebScraper.

Section WithLibraries.
Context `{!Libraries}.

(** How many levels a task can still open: none when it is beyond the
    depth bound, one at the bound itself. *)
Definition rank (self : scraper) (task : string * Z) : nat :=
  Z.to_nat (max_depth self - task.2 + 1).

(** The number of tasks of rank [n] in a queue. *)
Definition count_rank (self : scraper) (n : nat) (q : list (string * Z)) : nat :=
  length (filter (λ task, rank self task = n) q).

(** [crawl] has returned or raised within [fuel] turns of its loop. *)
Definition halts_in (fuel : nat) (self : scraper) (st : state) : Prop :=
  ∀ more, match crawl (fuel + more) self st with
          | Running _ => False
          | _ => True
          end.

(** No two depths of [l] are more than one level apart. *)
Definition spread (l : list Z) : Prop := ∀ x y, x ∈ l → y ∈ l → y ≤ x + 1.

(** The depths of the tasks handed to the fetcher, then of the tasks in
    the queue, never decrease, and the queue spans at most two adjacent
    depths. *)
Definition level_order (st : state) : Prop :=
  StronglySorted Z.le ((dispatched st).*2 ++ (queue st).*2)
  ∧ spread (queue st).*2.

(** Every record is the stripped text, not empty, of a body its URL
    answered with, and no URL has two records. *)
Definition records_from_pages (st : state) : Prop :=
  PyDict.wf (scraped_data st)
  ∧ ∀ url text, (url, text) ∈ scraped_data st →
      text ≠ EmptyString
      ∧ ∃ n html, _get_page_content n url = Some html
                  ∧ html ≠ EmptyString
                  ∧ text = soup_stripped_text html.

End WithLibraries.
End CrawlRun.

(** ** [websearch_specific.py]: [scrape_portal] as a whole *)

Module PortalPage.
Import PyStr Lib Portal.


Section WithLibraries.
Context `{!StrMethods} `{!Libraries}.

(** The tree [BeautifulSoup(response.content, 'html.parser')] builds. *)
Variable parse : string → node.


End WithLibraries.
End PortalPage.

(** ** [advanced/smart_search.py]: [interactive_chat], and the table read
    back *)

Module OllamaChat.
Import PyStr Lib Ollama.

(** [SELECT ... WHERE url = ?]: the rows stored under [u]. *)
Definition rows_of (u : string) (table : list Row) : list Row :=
  filter (λ row, url row = u) table.

(** A term without the wildcards of [LIKE]. *)
Definition wildcard (c : ascii) : bool := Ascii.eqb c "%" || Ascii.eqb c "_".

Fixpoint plain (term : string) : bool :=
  match term with
  | EmptyString => true
  | String c term' => negb (wildcard c) && plain term'
  end.

(** The URLs a call holds once its request has been sent. *)
Definition requested (c : call) : option string :=
  match c with
  | Called _ _ | Fetching _ _ => None
  | Storing u _ _ | Marking u _ _ | Submitting u _ _ => Some u
  end.

Section WithLibraries.
Context `{!Libraries}.

(** One entry of the context of line 262. *)
Definition source_entry (r : result) : string :=
  "Source: " +:+ r_url r +:+ newline
  +:+ "Title: " +:+ format (r_title r) +:+ newline
  +:+ "Content: " +:+ slice (r_content r) 0 300 +:+ "...".

Definition chat_prompt (query context : string) : string :=
  newline
  +:+ "            User Query: " +:+ query +:+ newline
  +:+ "            " +:+ newline
  +:+ "            Contextual Search Results:" +:+ newline
  +:+ "            " +:+ context +:+ newline
  +:+ "            " +:+ newline
  +:+ "            Please provide a comprehensive, natural language response " +:+ newline
  +:+ "            that directly addresses the user's query using the " +:+ newline
  +:+ "            contextual information from the web crawl. " +:+ newline
  +:+ "            " +:+ newline
  +:+ "            Include:" +:+ newline
  +:+ "            1. Direct answer to the query" +:+ newline
  +:+ "            2. Key insights from crawled sources" +:+ newline
  +:+ "            3. Relevant source URLs" +:+ newline
  +:+ "            " +:+ newline
  +:+ "            Format the response in a clear, conversational manner." +:+ newline
  +:+ "            ".

(** [interactive_chat(query)], its first completion request being the
    [n]-th: the search with its default limit of 5 sends one request and
    one more per result, then comes the request for the answer.
    [ollama_request] does not raise, so the [except] clause of line 289 is
    never entered. *)
Definition interactive_chat (self : service) (n : nat) (query : string)
    (table : list Row) : string :=
  let search_results := semantic_search self n query 5 table in
  let context :=
    String.concat (newline +:+ newline) (source_entry <$> search_results) in
  ollama_request self (S n + length search_results)
    (chat_prompt query context) 1000.

(** What holds of the requests of a run, under every schedule: one request
    per entry of the log; a call past its request, a visited URL and a URL
    the run has added to the table have all been requested. *)
Definition accounted (table0 : list Row) (st : state) : Prop :=
  requests st = length (fetched st)
  ∧ (∀ c u, c ∈ calls st → requested c = Some u → u ∈ (fetched st).*1)
  ∧ (∀ u, u ∈ visited_urls st → u ∈ (fetched st).*1)
  ∧ (∀ u, stored (web_pages st) u → stored table0 u ∨ u ∈ (fetched st).*1).

(** The table holds at most one row per URL and has lost none of the URLs
    of [table0]. *)
Definition keyed (table0 table : list Row) : Prop :=
  NoDup (url <$> table) ∧ ∀ u, stored table0 u → stored table u.

End WithLibraries.
End OllamaChat.

(** * Part II: properties *)

(** ** Strings *)

Section PyStrFacts.
Import PyStr.

Lemma prefix_app (sub s : string) :
  String.prefix sub s = true ↔ ∃ post, s = sub +:+ post.
Proof.
  revert s; induction sub as [|a sub IH]; intros s; simpl.
  - destruct s; simpl; (split; [intros _; by eexists | done]).
  - destruct s as [|b s]; simpl.
    + split; [done | intros [post Hp]; discriminate].
    + destruct (ascii_dec a b) as [->|Hne].
      * rewrite IH. split; intros [post Hp]; exists post.
        -- by rewrite Hp.
        -- by injection Hp.
      * split; [done | intros [post Hp]; injection Hp; congruence].
Qed.

Lemma occurs_at_0 (sub s : string) :
  occurs_at sub s 0 ↔ String.prefix sub s = true.
Proof.
  rewrite prefix_app. unfold occurs_at. split.
  - intros (pre & post & -> & Hl). destruct pre; [|done]. by exists post.
  - intros [post ->]. by exists EmptyString, post.
Qed.

Lemma occurs_at_S (sub : string) (c : ascii) (s : string) (i : nat) :
  occurs_at sub (String c s) (S i) ↔ occurs_at sub s i.
Proof.
  unfold occurs_at. split.
  - intros (pre & post & Hs & Hl). destruct pre as [|c' pre]; [done|].
    simpl in *. injection Hs as _ ->. exists pre, post. split; [done | lia].
  - intros (pre & post & -> & Hl). exists (String c pre), post.
    simpl. split; [done | lia].
Qed.

Lemma occurs_at_empty (sub : string) (i : nat) :
  occurs_at sub EmptyString i → i = 0%nat.
Proof. intros (pre & post & Hs & Hl). destruct pre; [done | discriminate]. Qed.

Lemma find_from_nil (sub : string) :
  find_from sub EmptyString =
  if String.prefix sub EmptyString then Some 0%nat else None.
Proof. reflexivity. Qed.

Lemma find_from_cons (sub : string) (c : ascii) (s : string) :
  find_from sub (String c s) =
  if String.prefix sub (String c s) then Some 0%nat else S <$> find_from sub s.
Proof. reflexivity. Qed.

(** [find_from] returns the first occurrence. *)
Lemma find_from_first (sub s : string) (i : nat) :
  find_from sub s = Some i →
  occurs_at sub s i ∧ ∀ j, (j < i)%nat → ¬ occurs_at sub s j.
Proof.
  revert i; induction s as [|c s IH]; intros i;
    [rewrite find_from_nil | rewrite find_from_cons].
  - destruct (String.prefix sub "") eqn:Hp; [|done].
    intros [= <-]. split; [by apply occurs_at_0 | lia].
  - destruct (String.prefix sub (String c s)) eqn:Hp.
    + intros [= <-]. split; [by apply occurs_at_0 | lia].
    + destruct (find_from sub s) as [k|] eqn:Hf; [|done].
      intros [= <-]. destruct (IH k eq_refl) as [Hocc Hmin]. split.
      * by apply occurs_at_S.
      * intros [|j] Hj.
        -- rewrite occurs_at_0. congruence.
        -- rewrite occurs_at_S. apply Hmin. lia.
Qed.

(** [find_from] fails only when there is no occurrence at all. *)
Lemma find_from_None (sub s : string) (i : nat) :
  find_from sub s = None → ¬ occurs_at sub s i.
Proof.
  revert i; induction s as [|c s IH]; intros i;
    [rewrite find_from_nil | rewrite find_from_cons].
  - destruct (String.prefix sub "") eqn:Hp; [done|].
    intros _ Hocc. pose proof (occurs_at_empty _ _ Hocc) as ->.
    apply occurs_at_0 in Hocc. congruence.
  - destruct (String.prefix sub (String c s)) eqn:Hp; [done|].
    destruct (find_from sub s) as [k|] eqn:Hf; [done|].
    intros _. destruct i as [|i].
    + rewrite occurs_at_0. congruence.
    + rewrite occurs_at_S. by apply IH.
Qed.

Lemma length_append (s t : string) :
  String.length (s +:+ t) = (String.length s + String.length t)%nat.
Proof. induction s as [|c s IH]; simpl; [done | by rewrite IH]. Qed.

Lemma occurs_at_bound (sub s : string) (i : nat) :
  occurs_at sub s i → (i + String.length sub ≤ String.length s)%nat.
Proof.
  intros (pre & post & -> & <-). rewrite !length_append. lia.
Qed.

Lemma length_ascii_lower (s : string) :
  String.length (ascii_lower s) = String.length s.
Proof. induction s as [|c s IH]; simpl; [done | by rewrite IH]. Qed.

Lemma substring_0 (a : nat) (s : string) :
  String.substring a 0 s = EmptyString.
Proof.
  revert a; induction s as [|c s IH]; intros [|a]; simpl; done.
Qed.

Lemma len_nonneg (s : string) : 0 ≤ len s.
Proof. unfold len. lia. Qed.

Lemma contains_find (sub s : string) :
  contains sub s = true →
  ∃ i, find_from sub s = Some i ∧ find s sub = Z.of_nat i.
Proof.
  unfold contains, find. destruct (find_from sub s) as [i|]; [|done].
  intros _. by exists i.
Qed.

End PyStrFacts.

(** ** Dictionaries *)

Section PyDictFacts.
Context {V : Type}.
Implicit Types (d : PyDict.dict V) (k : string) (v : V).

Lemma dict_get_set_eq d k v : PyDict.get k (PyDict.set k v d) = Some v.
Proof.
  induction d as [|[k' v'] d IH]; simpl.
  - by rewrite String.eqb_refl.
  - destruct (String.eqb_spec k k') as [->|Hne]; simpl.
    + by rewrite String.eqb_refl.
    + destruct (String.eqb_spec k k'); [done | apply IH].
Qed.

Lemma dict_get_set_ne d k k' v :
  k ≠ k' → PyDict.get k' (PyDict.set k v d) = PyDict.get k' d.
Proof.
  intros Hne. induction d as [|[k0 v0] d IH]; simpl.
  - destruct (String.eqb_spec k' k); [congruence | done].
  - destruct (String.eqb_spec k k0) as [->|Hk]; simpl.
    + destruct (String.eqb_spec k' k0); [congruence | done].
    + destruct (String.eqb_spec k' k0); [done | apply IH].
Qed.

Lemma dict_keys_set d k v k' :
  k' ∈ (PyDict.set k v d).*1 ↔ k' = k ∨ k' ∈ d.*1.
Proof.
  induction d as [|[k0 v0] d IH]; simpl.
  - rewrite list_elem_of_singleton, elem_of_nil. tauto.
  - destruct (String.eqb_spec k k0) as [->|Hk]; simpl.
    + rewrite !elem_of_cons. tauto.
    + rewrite !elem_of_cons, IH. tauto.
Qed.

Lemma dict_wf_set d k v : PyDict.wf d → PyDict.wf (PyDict.set k v d).
Proof.
  unfold PyDict.wf. induction d as [|[k0 v0] d IH]; simpl.
  - intros _. apply NoDup_singleton.
  - rewrite NoDup_cons. intros [Hnin Hnd].
    destruct (String.eqb_spec k k0) as [->|Hk]; simpl.
    + by apply NoDup_cons.
    + apply NoDup_cons. split; [|by apply IH].
      rewrite dict_keys_set. intros [?|?]; [congruence | done].
Qed.

Lemma dict_elem_of_set d k v k' v' :
  (k', v') ∈ PyDict.set k v d → (k', v') = (k, v) ∨ (k', v') ∈ d.
Proof.
  induction d as [|[k0 v0] d IH]; simpl.
  - rewrite list_elem_of_singleton. by left.
  - destruct (String.eqb_spec k k0) as [->|Hk];
      rewrite !elem_of_cons; intros [?|?]; eauto.
    destruct IH as [?|?]; eauto.
Qed.

Lemma dict_get_elem_of d k v : PyDict.get k d = Some v → (k, v) ∈ d.
Proof.
  induction d as [|[k0 v0] d IH]; simpl; [done|].
  destruct (String.eqb_spec k k0) as [->|Hk].
  - intros [= ->]. apply elem_of_cons. by left.
  - intros H. apply elem_of_cons. right. by apply IH.
Qed.

Lemma dict_elem_of_get d k v : PyDict.wf d → (k, v) ∈ d → PyDict.get k d = Some v.
Proof.
  unfold PyDict.wf. induction d as [|[k0 v0] d IH]; simpl.
  - intros _ H. by apply elem_of_nil in H.
  - rewrite NoDup_cons, elem_of_cons. intros [Hnin Hnd] [Heq|Hin].
    + injection Heq as -> ->. by rewrite String.eqb_refl.
    + destruct (String.eqb_spec k k0) as [->|Hk]; [|by apply IH].
      exfalso. apply Hnin. apply list_elem_of_fmap. by exists (k0, v).
Qed.


End PyDictFacts.

(** ** [SearchEngine.search] *)

Section SearchEngineFacts.
Import PyStr SearchEngine.
Context {SM : StrMethods}.
Implicit Types (data results : PyDict.dict string).

Lemma search_item_hit query cs results url content :
  search_item query cs results (url, content) =
  match hit query cs content with
  | Some s => PyDict.set url s results
  | None => results
  end.
Proof.
  unfold search_item, hit, folded.
  destruct cs; simpl; by destruct (contains _ _).
Qed.

Lemma search_fold_other query cs data results url :
  url ∉ data.*1 →
  PyDict.get url (foldl (search_item query cs) results data) =
  PyDict.get url results.
Proof.
  revert results; induction data as [|[u c] data IH]; intros results; [done|].
  rewrite fmap_cons, not_elem_of_cons. intros [Hne Hnin].
  cbn [foldl]. rewrite IH by done. rewrite search_item_hit.
  destruct (hit query cs c); [|done]. apply dict_get_set_ne. by intros ->.
Qed.

Lemma search_fold_get query cs data results url content :
  PyDict.wf data → (url, content) ∈ data →
  PyDict.get url (foldl (search_item query cs) results data) =
  match hit query cs content with
  | Some s => Some s
  | None => PyDict.get url results
  end.
Proof.
  unfold PyDict.wf.
  revert results; induction data as [|[u c] data IH]; intros results.
  - intros _ H. by apply elem_of_nil in H.
  - rewrite fmap_cons, NoDup_cons, elem_of_cons. intros [Hnin Hnd] [Heq|Hin].
    + injection Heq as -> ->. cbn [foldl].
      rewrite search_fold_other by done. rewrite search_item_hit.
      destruct (hit query cs c); [apply dict_get_set_eq | done].
    + cbn [foldl]. rewrite IH by done.
      destruct (hit query cs content); [done|].
      rewrite search_item_hit. destruct (hit query cs c); [|done].
      apply dict_get_set_ne. intros ->. apply Hnin.
      apply list_elem_of_fmap. by exists (url, content).
Qed.

Lemma search_fold_wf query cs data results :
  PyDict.wf results → PyDict.wf (foldl (search_item query cs) results data).
Proof.
  revert results; induction data as [|[u c] data IH]; intros results Hwf; [done|].
  cbn [foldl]. apply IH. rewrite search_item_hit.
  destruct (hit query cs c); [by apply dict_wf_set | done].
Qed.

Lemma search_fold_elem query cs data results url s :
  (url, s) ∈ foldl (search_item query cs) results data →
  (url, s) ∈ results ∨ ∃ content, (url, content) ∈ data ∧ hit query cs content = Some s.
Proof.
  revert results; induction data as [|[u c] data IH]; intros results; [by left|].
  cbn [foldl]. intros H. apply IH in H as [H|(content & Hin & Hhit)].
  - rewrite search_item_hit in H. destruct (hit query cs c) as [s'|] eqn:Hh.
    + apply dict_elem_of_set in H as [[= -> ->]|H]; [|by left].
      right. exists c. split; [apply list_elem_of_here | done].
    + by left.
  - right. exists content. split; [by apply list_elem_of_further | done].
Qed.

Lemma search_wf data query cs : PyDict.wf (search data query cs).
Proof. apply search_fold_wf. apply NoDup_nil_2. Qed.

(** Folding keeps the length of ASCII text, and of any text when the
    search is case sensitive. *)
Lemma len_folded cs s :
  cs = true ∨ is_ascii s = true → len (folded cs s) = len s.
Proof.
  unfold folded, len. destruct cs; [done|]. intros [?|Ha]; [done|].
  by rewrite (lower_ascii _ Ha), length_ascii_lower.
Qed.

(** A match lies inside the text it was found in. *)
Lemma match_inside query text i :
  find_from query text = Some i → 0 ≤ Z.of_nat i ∧ Z.of_nat i + len query ≤ len text.
Proof.
  intros Hf. apply find_from_first in Hf as [Hocc _].
  apply occurs_at_bound in Hocc. unfold len. lia.
Qed.

(** A slice between bounds that are not negative, the upper one within
    the text. *)
Lemma slice_substring (s : string) (lo hi : Z) :
  0 ≤ lo → 0 ≤ hi ≤ len s →
  slice s lo hi = String.substring (Z.to_nat lo) (Z.to_nat (hi - lo)) s.
Proof.
  intros Hlo Hhi. unfold slice, slice_bound.
  destruct (Z.ltb_spec lo 0); [lia|]. destruct (Z.ltb_spec hi 0); [lia|].
  rewrite (Z.min_l hi) by lia.
  destruct (Z.le_gt_cases lo (len s)).
  - by rewrite Z.min_l by lia.
  - rewrite Z.min_r by lia.
    replace (Z.to_nat (hi - len s)) with 0%nat by lia.
    replace (Z.to_nat (hi - lo)) with 0%nat by lia.
    by rewrite !substring_0.
Qed.

(** C7: a record whose content contains the query gets exactly one snippet,
    the content from [max(0, firstMatchStart-50)] to
    [min(len(content), firstMatchEnd+100)] between two ellipsis markers, the
    match being the first one in the text the query is looked up in (the
    lowered content unless the search is case sensitive). The bounds never
    leave the content. When that text is as long as the content (a case
    sensitive search, or ASCII content) the window is in order, so the
    slice takes it as it is; for content [abcXYZdef] and query [XYZ] the
    window is the whole string. *)
Theorem search_snippet_window data query cs url content :
  PyDict.wf data →
  (url, content) ∈ data →
  contains (folded cs query) (folded cs content) = true →
  let firstMatchStart := find (folded cs content) (folded cs query) in
  let firstMatchEnd := firstMatchStart + len (folded cs query) in
  let lo := Z.max 0 (firstMatchStart - 50) in
  let hi := Z.min (len content) (firstMatchEnd + 100) in
  PyDict.get url (search data query cs) = Some ("..." +:+ slice content lo hi +:+ "...")
  ∧ (∀ s, (url, s) ∈ search data query cs → s = "..." +:+ slice content lo hi +:+ "...")
  ∧ (0 ≤ lo ∧ 0 ≤ hi ∧ hi ≤ len content)
  ∧ slice content lo hi = String.substring (Z.to_nat lo) (Z.to_nat (hi - lo)) content
  ∧ (len (folded cs content) = len content → lo ≤ firstMatchStart ∧ firstMatchEnd ≤ hi)
  ∧ (cs = true ∨ is_ascii content = true → len (folded cs content) = len content)
  ∧ search [("u", "abcXYZdef")] "XYZ" cs = [("u", "...abcXYZdef...")].
Proof.
  intros Hwf Hin Hc. cbv zeta.
  set (q := folded cs query) in *. set (text := folded cs content) in *.
  assert (Hget : PyDict.get url (search data query cs) =
                 Some (snippet content (find text q) (find text q + len q))).
  { unfold search. replace (if negb cs then lower query else query) with q
      by (unfold q, folded; by destruct cs).
    rewrite (search_fold_get _ _ _ _ _ _ Hwf Hin). unfold hit. fold text.
    by rewrite Hc. }
  destruct (contains_find _ _ Hc) as (i & Hi & Hfind).
  pose proof (match_inside _ _ _ Hi) as [Hi0 Hi1].
  pose proof (len_nonneg q) as Hq. pose proof (len_nonneg content) as Hcontent.
  rewrite Hfind in *.
  split; [exact Hget|]. split; [|split; [lia|split; [|split; [|split]]]].
  - intros s Hs. apply (dict_elem_of_get _ _ _ (search_wf data query cs)) in Hs.
    rewrite Hget in Hs. injection Hs as <-. reflexivity.
  - apply slice_substring; lia.
  - intros Hlen. lia.
  - apply len_folded.
  - destruct cs; [reflexivity|]. unfold search. cbn [negb foldl search_item].
    rewrite (lower_ascii "XYZ" eq_refl), (lower_ascii "abcXYZdef" eq_refl).
    reflexivity.
Qed.

(** C10: the results hold at most one entry per URL, and every entry is
    the snippet of a stored record taken at the first occurrence of the
    query in its content: there the query occurs, and nowhere before. *)
Theorem search_one_result_per_url data query cs :
  NoDup (search data query cs).*1
  ∧ (∀ url s, (url, s) ∈ search data query cs →
       ∃ content (i : nat),
         (url, content) ∈ data
         ∧ find (folded cs content) (folded cs query) = Z.of_nat i
         ∧ occurs_at (folded cs query) (folded cs content) i
         ∧ (∀ j, (j < i)%nat → ¬ occurs_at (folded cs query) (folded cs content) j)
         ∧ s = snippet content (Z.of_nat i) (Z.of_nat i + len (folded cs query)))
  ∧ search [("u", "one two one two one")] "ONE" cs =
      if cs then [] else [("u", "...one two one two one...")].
Proof.
  split; [apply search_wf|]. split.
  2:{ destruct cs; [reflexivity|]. unfold search. cbn [negb foldl search_item].
      rewrite (lower_ascii "ONE" eq_refl).
      rewrite (lower_ascii "one two one two one" eq_refl). reflexivity. }
  intros url s Hs. unfold search in Hs.
  replace (if negb cs then lower query else query) with (folded cs query) in Hs
    by (unfold folded; by destruct cs).
  apply search_fold_elem in Hs as [Hs|(content & Hin & Hhit)].
  { by apply elem_of_nil in Hs. }
  unfold hit in Hhit.
  destruct (contains (folded cs query) (folded cs content)) eqn:Hc; [|done].
  destruct (contains_find _ _ Hc) as (i & Hi & Hfind).
  injection Hhit as <-. rewrite Hfind.
  destruct (find_from_first _ _ _ Hi) as [Hocc Hmin].
  by exists content, i.
Qed.

End SearchEngineFacts.

(** The premises of C7 hold on a small corpus. *)
Lemma search_snippet_window_witness :
  PyDict.get "http://example.com/"
    (@SearchEngine.search PyStr.latin1
       [("http://example.com/", "Say Hello World today")] "hello" false)
  = Some "...Say Hello World today...".
Proof.
  assert (Hwf : PyDict.wf [("http://example.com/", "Say Hello World today")])
    by apply NoDup_singleton.
  assert (Hin : ("http://example.com/", "Say Hello World today")
                ∈ [("http://example.com/", "Say Hello World today")])
    by apply list_elem_of_here.
  assert (Hc : PyStr.contains (@SearchEngine.folded PyStr.latin1 false "hello")
                 (@SearchEngine.folded PyStr.latin1 false "Say Hello World today")
               = true)
    by reflexivity.
  exact (proj1 (@search_snippet_window PyStr.latin1 _ "hello" false _ _ Hwf Hin Hc)).
Defined.

(** ** [scrape_portal]: targeted extraction *)

Section PortalFacts.
Import PyStr Portal.
Context {SM : StrMethods}.

Lemma node_ind_nested (P : node → Prop) :
  (∀ cls s, P (NavigableString cls s)) →
  (∀ name children, Forall P children → P (Tag name children)) →
  ∀ n, P n.
Proof.
  intros Hs Ht. fix IH 1. intros [cls s|name children]; [apply Hs|].
  apply Ht. induction children as [|c cs IHcs]; constructor; [apply IH | exact IHcs].
Qed.

Lemma elem_of_flat_imap_from {A B} (f : nat → A → list B) i0 l y :
  y ∈ flat_imap_from f i0 l ↔ ∃ j x, l !! j = Some x ∧ y ∈ f (i0 + j)%nat x.
Proof.
  revert i0; induction l as [|x l IH]; intros i0; simpl.
  - rewrite elem_of_nil. split; [done | intros (j & x & Hj & _); done].
  - rewrite elem_of_app, IH. split.
    + intros [Hy|(j & x' & Hj & Hy)].
      * exists 0%nat, x. by rewrite Nat.add_0_r.
      * exists (S j), x'. split; [done|]. by rewrite Nat.add_succ_r.
    + intros ([|j] & x' & Hj & Hy); simpl in Hj.
      * injection Hj as <-. left. by rewrite Nat.add_0_r in Hy.
      * right. exists j, x'. split; [done|]. by rewrite Nat.add_succ_r in Hy.
Qed.

(** [find_all(string=...)] lists exactly the strings that pass the
    filter, of whatever class. *)
Lemma find_all_string_spec pred n p :
  p ∈ find_all_string pred n ↔
  ∃ cls s, node_at n p = Some (NavigableString cls s) ∧ pred s = true.
Proof.
  revert p; induction n as [cls s|name children IH] using node_ind_nested; intros p.
  - simpl. destruct (pred s) eqn:Hp.
    + rewrite list_elem_of_singleton. split.
      * intros ->. by exists cls, s.
      * intros (cls' & s' & Hn & _). destruct p; [done|discriminate].
    + rewrite elem_of_nil. split; [done|].
      intros (cls' & s' & Hn & Hs'). destruct p; [|discriminate].
      simpl in Hn. injection Hn as <- <-. congruence.
  - cbn [find_all_string]. rewrite elem_of_flat_imap_from. split.
    + intros (j & c & Hj & Hp). apply list_elem_of_fmap in Hp as (p' & -> & Hp').
      rewrite Forall_forall in IH.
      apply IH in Hp' as (cls & s & Hn & Hs); [|by eapply list_elem_of_lookup_2].
      exists cls, s. split; [|done]. simpl. by rewrite Hj.
    + intros (cls & s & Hn & Hs). destruct p as [|j p']; [discriminate|].
      simpl in Hn. destruct (children !! j) as [c|] eqn:Hj; [|done].
      simpl in Hn. exists j, c. split; [done|].
      apply list_elem_of_fmap. exists p'. split; [done|].
      rewrite Forall_forall in IH. apply IH; [by eapply list_elem_of_lookup_2|].
      by exists cls, s.
Qed.

(** [descendants] lists exactly the elements strictly below. *)
Lemma descendants_spec n d :
  d ∈ descendants n ↔ ∃ q, q ≠ [] ∧ node_at n q = Some d.
Proof.
  revert d; induction n as [cls s|name children IH] using node_ind_nested; intros d.
  - simpl. rewrite elem_of_nil. split; [done|].
    intros ([|i q] & Hq & Hn); [done | discriminate].
  - cbn [descendants]. rewrite list_elem_of_bind. rewrite Forall_forall in IH. split.
    + intros (c & Hd & Hc). apply list_elem_of_lookup in Hc as Hj. destruct Hj as [j Hj].
      apply elem_of_cons in Hd as [->|Hd].
      * exists [j]. split; [done|]. simpl. by rewrite Hj.
      * apply IH in Hd as (q & _ & Hn); [|done].
        exists (j :: q). split; [done|]. simpl. by rewrite Hj.
    + intros ([|j q] & Hq & Hn); [done|].
      simpl in Hn. destruct (children !! j) as [c|] eqn:Hj; [|done]. simpl in Hn.
      exists c. split; [|by eapply list_elem_of_lookup_2].
      destruct q as [|i q].
      * simpl in Hn. injection Hn as ->. apply list_elem_of_here.
      * apply list_elem_of_further. apply IH; [by eapply list_elem_of_lookup_2|].
        by exists (i :: q).
Qed.

(** Every prefix of a path into the tree is a path into the tree. *)
Lemma node_at_take n p x m :
  node_at n p = Some x → is_Some (node_at n (take m p)).
Proof.
  revert n m; induction p as [|i p IH]; intros n m Hn.
  - rewrite take_nil. by eexists.
  - destruct m as [|m]; [by eexists|]. simpl in *.
    destruct n as [cls s|name children]; [done|].
    destruct (children !! i) as [c|]; [|done]. simpl in *. by eapply IH.
Qed.

(** The loop stops at the deepest [div] among the ancestors it walks. *)
Lemma climb_Some soup p m d :
  climb soup p m = Some d →
  ∃ k, (k ≤ m)%nat ∧ node_at soup (take k p) = Some d ∧ is_tag "div" d = true
       ∧ ∀ j d', (k < j ≤ m)%nat → node_at soup (take j p) = Some d' →
                 is_tag "div" d' = false.
Proof.
  induction m as [|m IH]; cbn [climb].
  - destruct (node_at soup (take 0 p)) as [parent|] eqn:Hn; [|done].
    destruct (is_tag "div" parent) eqn:Hd; [|done].
    intros [= <-]. exists 0%nat. repeat split; [done..|]. intros; lia.
  - destruct (node_at soup (take (S m) p)) as [parent|] eqn:Hn; [|done].
    destruct (is_tag "div" parent) eqn:Hd.
    + intros [= <-]. exists (S m). repeat split; [done..|]. intros; lia.
    + intros Hc. apply IH in Hc as (k & Hk & Hnk & Hdk & Hmin).
      exists k. repeat split; [lia | done..|].
      intros j d' Hj Hnj. destruct (decide (j = S m)) as [->|Hne].
      * congruence.
      * apply (Hmin j); [lia | done].
Qed.

Lemma climb_None soup p m :
  climb soup p m = None →
  (∀ j, (j ≤ m)%nat → is_Some (node_at soup (take j p))) →
  ∀ j d', (j ≤ m)%nat → node_at soup (take j p) = Some d' → is_tag "div" d' = false.
Proof.
  induction m as [|m IH]; cbn [climb]; intros Hc Hvalid j d' Hj Hn.
  - assert (j = 0%nat) as -> by lia. rewrite Hn in Hc.
    by destruct (is_tag "div" d').
  - destruct (Hvalid (S m)) as [parent Hp]; [lia|]. rewrite Hp in Hc.
    destruct (is_tag "div" parent) eqn:Hd; [done|].
    destruct (decide (j = S m)) as [->|Hne]; [congruence|].
    apply (IH Hc) with (j := j); [intros; apply Hvalid|..]; [lia | lia | done].
Qed.

Lemma proper_prefix_take (p q : path) :
  q `prefix_of` p ∧ q ≠ p ↔
  ∃ k, (k < List.length p)%nat ∧ q = take k p.
Proof.
  split.
  - intros [[r ->] Hne]. exists (List.length q). split.
    + rewrite length_app. destruct r; [|simpl; lia].
      by rewrite app_nil_r in Hne.
    + by rewrite take_app_length.
  - intros (k & Hk & ->). split; [apply prefix_take|].
    intros Heq. apply (f_equal List.length) in Heq.
    rewrite length_take in Heq. lia.
Qed.

(** The element the loop of lines 50-56 ends on is the nearest enclosing
    container of the string. *)
Lemma climb_nearest soup p cls s d :
  node_at soup p = Some (NavigableString cls s) →
  climb soup p (Nat.pred (List.length p)) = Some d ↔ nearest_container soup p d.
Proof.
  intros Hp.
  assert (Hvalid : ∀ j, is_Some (node_at soup (take j p)))
    by (intros j; by eapply node_at_take).
  destruct p as [|i p'] eqn:Ep.
  { (* the text node is the whole document: no ancestor at all *)
    split.
    - cbn [climb List.length Nat.pred]. rewrite take_nil, Hp. simpl. done.
    - intros (q & (Hpre & Hne & _) & _). apply prefix_nil_inv in Hpre. done. }
  rewrite <- Ep in *. assert (Hlen : List.length p = S (List.length p')) by (by subst).
  rewrite Hlen. cbn [Nat.pred]. split.
  - intros Hc. apply climb_Some in Hc as (k & Hk & Hnk & Hdk & Hmin).
    exists (take k p). split.
    + split; [apply prefix_take|]. split; [|done].
      intros Heq. apply (f_equal List.length) in Heq.
      rewrite length_take in Heq. lia.
    + intros q' d' (Hpre & Hne & Hn' & Hd').
      destruct (proj1 (proper_prefix_take p q') (conj Hpre Hne)) as (k' & Hk' & ->).
      rewrite !length_take. destruct (decide (k' ≤ k)%nat); [lia|].
      rewrite (Hmin k' d') in Hd'; [done | lia | done].
  - intros (q & (Hpre & Hne & Hn & Hd) & Hnear).
    destruct (proj1 (proper_prefix_take p q) (conj Hpre Hne)) as (k & Hk & ->).
    destruct (climb soup p (List.length p')) as [d0|] eqn:Hc.
    + apply climb_Some in Hc as (k0 & Hk0 & Hn0 & Hd0 & Hmin).
      destruct (decide (k0 < k)%nat) as [Hlt|Hge].
      * rewrite (Hmin k d) in Hd; [done | lia | done].
      * assert (take k0 p `prefix_of` p ∧ take k0 p ≠ p) as [Hpre0 Hne0].
        { apply proper_prefix_take. exists k0. split; [lia | done]. }
        specialize (Hnear (take k0 p) d0 (conj Hpre0 (conj Hne0 (conj Hn0 Hd0)))).
        rewrite !length_take in Hnear.
        assert (k0 = k) as -> by lia. congruence.
    + eapply climb_None with (j := k) in Hc; [|intros; apply Hvalid | lia | done].
      congruence.
Qed.

Lemma contains_occurs (sub s : string) :
  contains sub s = true ↔ ∃ i, occurs_at sub s i.
Proof.
  unfold contains. destruct (find_from sub s) as [i|] eqn:Hf.
  - split; [|done]. intros _. exists i. by apply find_from_first.
  - split; [done|]. intros [i Hi]. by apply find_from_None with (i := i) in Hf.
Qed.

Lemma mentions_spec focus text :
  focus ≠ EmptyString →
  mentions focus text = true ↔ contains_ci focus text.
Proof.
  intros Hf. unfold mentions, contains_ci.
  rewrite andb_true_iff, contains_occurs, negb_true_iff. split; [tauto|].
  intros [i Hi]. split; [|by exists i].
  destruct (String.eqb_spec text EmptyString) as [->|]; [|done].
  rewrite (lower_ascii EmptyString eq_refl) in Hi.
  apply occurs_at_bound in Hi. simpl in Hi.
  destruct (lower focus) eqn:Hl; [by apply lower_nonempty in Hl | simpl in Hi; lia].
Qed.

(** What a loop that adds to a set leaves in it. *)
Lemma elem_of_foldl_add {A} (g : A → option string) (l : list A)
    (acc : gset string) (t : string) :
  t ∈ foldl (λ acc x, match g x with Some y => {[ y ]} ∪ acc | None => acc end) acc l
  ↔ t ∈ acc ∨ ∃ x, x ∈ l ∧ g x = Some t.
Proof.
  revert acc; induction l as [|x l IH]; intros acc; cbn [foldl].
  - split; [by left | intros [?|(x & Hx & _)]; [done | by apply elem_of_nil in Hx]].
  - rewrite IH. split.
    + intros [Ht|(x' & Hx' & Hg)].
      * destruct (g x) as [y|] eqn:Hg; [|by left].
        apply elem_of_union in Ht as [Ht|Ht]; [|by left].
        apply elem_of_singleton in Ht as ->. right. exists x.
        split; [apply list_elem_of_here | done].
      * right. exists x'. split; [by apply list_elem_of_further | done].
    + intros [Ht|(x' & Hx' & Hg)].
      * left. destruct (g x); [|done]. apply elem_of_union. by right.
      * apply elem_of_cons in Hx' as [->|Hx'].
        -- left. rewrite Hg. apply elem_of_union. left. by apply elem_of_singleton.
        -- right. by exists x'.
Qed.

Lemma foldl_pointwise {A B} (f g : A → B → A) (a : A) (l : list B) :
  (∀ a x, f a x = g a x) → foldl f a l = foldl g a l.
Proof.
  intros Hfg. revert a; induction l as [|x l IH]; intros a; cbn [foldl]; [done|].
  by rewrite Hfg, IH.
Qed.

Lemma relevant_div_content_spec search_text soup t :
  t ∈ relevant_div_content search_text soup ↔
  ∃ p d, p ∈ find_all_string (mentions search_text) soup
         ∧ climb soup p (Nat.pred (List.length p)) = Some d
         ∧ t = get_text d.
Proof.
  unfold relevant_div_content.
  rewrite (foldl_pointwise _
    (λ acc x, match get_text <$> climb soup x (Nat.pred (List.length x)) with
              | Some y => {[ y ]} ∪ acc
              | None => acc
              end)).
  2:{ intros a x. by destruct (climb soup x _). }
  rewrite elem_of_foldl_add. split.
  - intros [Ht|(p & Hp & Hg)]; [by apply not_elem_of_empty in Ht|].
    destruct (climb soup p _) as [d|] eqn:Hc; [|done].
    injection Hg as <-. by exists p, d.
  - intros (p & d & Hp & Hc & ->). right. exists p. by rewrite Hc.
Qed.

Lemma all_div_content_spec soup t :
  t ∈ all_div_content soup ↔
  t ≠ EmptyString ∧ ∃ d, d ∈ find_all_tag "div" soup ∧ t = get_text d.
Proof.
  unfold all_div_content.
  rewrite (foldl_pointwise _
    (λ acc x, match (if String.eqb (get_text x) EmptyString then None
                     else Some (get_text x)) with
              | Some y => {[ y ]} ∪ acc
              | None => acc
              end)).
  2:{ intros a x. cbv zeta. by destruct (String.eqb (get_text x) EmptyString). }
  rewrite elem_of_foldl_add. split.
  - intros [Ht|(d & Hd & Hg)]; [by apply not_elem_of_empty in Ht|].
    destruct (String.eqb_spec (get_text d) EmptyString) as [|Hne]; [done|].
    injection Hg as <-. split; [done | by exists d].
  - intros (Hne & d & Hd & ->). right. exists d. split; [done|].
    by destruct (String.eqb_spec (get_text d) EmptyString).
Qed.

(** The extraction, string by string. *)
Lemma scrape_portal_content_spec children search_text t :
  t ∈ scrape_portal_content search_text (BeautifulSoup children) ↔
  string_extraction (focus_of search_text) (BeautifulSoup children) t.
Proof.
  set (soup := BeautifulSoup children).
  assert (Hall : t ∈ all_div_content soup ↔ string_extraction None soup t).
  { rewrite all_div_content_spec. unfold string_extraction, find_all_tag.
    split; intros [Hne H]; (split; [done|]).
    - destruct H as (d & Hd & ->). apply list_elem_of_filter in Hd as [Hdiv Hd].
      apply descendants_spec in Hd as (q & _ & Hq). by exists q, d.
    - destruct H as (q & d & Hq & Hdiv & ->). exists d. split; [|done].
      apply list_elem_of_filter. split; [done|]. apply descendants_spec.
      exists q. split; [|done]. intros ->. simpl in Hq. injection Hq as <-.
      discriminate. }
  destruct search_text as [f|]; [|exact Hall].
  unfold scrape_portal_content.
  destruct (String.eqb_spec f EmptyString) as [->|Hf]; [exact Hall|].
  replace (focus_of (Some f)) with (Some f) by (by destruct f).
  rewrite relevant_div_content_spec. unfold string_extraction. split.
  - intros (p & d & Hp & Hc & ->).
    apply find_all_string_spec in Hp as (cls & s & Hn & Hs).
    exists p, cls, s, d. split; [done|]. split; [by apply mentions_spec|].
    split; [|done]. by apply (climb_nearest soup p cls s d Hn).
  - intros (p & cls & s & d & Hn & Hs & Hnear & ->). exists p, d.
    split; [|split; [|done]].
    + apply find_all_string_spec. exists cls, s. split; [done|].
      by apply mentions_spec.
    + by apply (climb_nearest soup p cls s d Hn).
Qed.

(** C9, as the code has it: on a parsed document, with a focus string the
    extraction returns exactly the texts of the nearest enclosing [div] of
    each string of the document that contains the focus string, letter
    case ignored; the strings are those of every class, comments and the
    sources of scripts and styles with the text, while the text of a [div]
    leaves those out. So the extraction holds what the text nodes alone
    give, and it is exactly that on a document whose strings are all text.
    Without a focus string (none, or the empty string) it returns exactly
    the texts of all [div]s, the empty texts left out. The result is a set,
    so equal texts appear once. *)
Theorem scrape_content_targeted children search_text t :
  let soup := BeautifulSoup children in
  (t ∈ scrape_portal_content search_text soup ↔
   string_extraction (focus_of search_text) soup t)
  ∧ (targeted_extraction (focus_of search_text) soup t →
     t ∈ scrape_portal_content search_text soup)
  ∧ (text_only soup →
     (t ∈ scrape_portal_content search_text soup ↔
      targeted_extraction (focus_of search_text) soup t))
  ∧ (focus_of search_text = None →
     (t ∈ scrape_portal_content search_text soup ↔
      targeted_extraction None soup t)).
Proof.
  cbv zeta. pose proof (scrape_portal_content_spec children search_text t) as Hspec.
  set (soup := BeautifulSoup children) in *.
  assert (Hsub : targeted_extraction (focus_of search_text) soup t →
                 string_extraction (focus_of search_text) soup t).
  { destruct (focus_of search_text) as [f|]; [|done]. simpl.
    intros (p & cls & s & d & Hn & _ & H). by exists p, cls, s, d. }
  split; [exact Hspec|]. split; [|split].
  - intros Ht. by apply Hspec, Hsub.
  - intros Honly. rewrite Hspec. split; [|exact Hsub].
    destruct (focus_of search_text) as [f|]; [|done]. simpl.
    intros (p & cls & s & d & Hn & H). exists p, cls, s, d.
    split; [done|]. split; [by eapply Honly | done].
  - intros Hnone. rewrite Hspec. by rewrite Hnone.
Qed.

End PortalFacts.


(** ** [WebScraper]: one turn of the loop *)

Section WebScraperFacts.
Import PyStr Lib WebScraper.
Context `{!Libraries}.
Implicit Types (self : scraper) (st : state) (url : string) (depth : Z).

Lemma truthy_Some (html : string) :
  truthy (Some html) = true ↔ html ≠ EmptyString.
Proof.
  simpl. destruct (String.eqb_spec html EmptyString); simpl; split; congruence.
Qed.

(** The links [_extract_links] returns come from the anchors, lie in the
    crawl domain and are not visited. *)
Lemma extract_hrefs_spec self (V : gset string) current_url hrefs links :
  extract_hrefs self V current_url hrefs = Some links →
  ∀ link, link ∈ links →
    (∃ href, href ∈ hrefs ∧ urljoin current_url href = Some link)
    ∧ in_domain self link ∧ link ∉ V.
Proof.
  revert links; induction hrefs as [|href hrefs IH]; intros links; simpl.
  - intros [= <-] link Hl. by apply elem_of_nil in Hl.
  - destruct (urljoin current_url href) as [absolute_url|] eqn:Hj; [|done]. simpl.
    destruct (urlparse absolute_url) as [parsed|] eqn:Hp; [|done]. simpl.
    destruct (extract_hrefs self V current_url hrefs) as [links'|]; [|done]. simpl.
    intros [= <-] link Hl.
    assert (Hrest : link ∈ links' →
      (∃ href0, href0 ∈ href :: hrefs ∧ urljoin current_url href0 = Some link)
      ∧ in_domain self link ∧ link ∉ V).
    { intros Hl'. destruct (IH links' eq_refl link Hl') as ((h & Hh & Hu) & Hd & Hv).
      split; [|done]. exists h. split; [by apply list_elem_of_further | done]. }
    destruct (String.eqb_spec (netloc parsed) (domain self)) as [Hd|]; [|by apply Hrest].
    destruct (bool_decide_reflect (absolute_url ∉ V)) as [Hv|]; [|by apply Hrest].
    simpl in Hl. apply elem_of_cons in Hl as [->|Hl']; [|by apply Hrest].
    split; [|split; [by exists parsed | done]].
    exists href. split; [apply list_elem_of_here | done].
Qed.

(** All the ways a turn of the loop can go. *)
Lemma crawl_task_cases self st url depth rest st' :
  crawl_task self st url depth rest = Some st' →
  ((url ∈ visited st ∨ max_depth self < depth)
   ∧ visited st' = visited st ∧ queue st' = rest
   ∧ scraped_data st' = scraped_data st
   ∧ requests st' = requests st ∧ dispatched st' = dispatched st)
  ∨ ((url ∉ visited st) ∧ depth ≤ max_depth self
     ∧ visited st' = {[ url ]} ∪ visited st
     ∧ dispatched st' = dispatched st ++ [(url, depth)]
     ∧ ((fetch_gave_nothing (requests st) url
         ∧ queue st' = rest ∧ scraped_data st' = scraped_data st
         ∧ requests st' = S (requests st))
        ∨ (∃ html, _get_page_content (requests st) url = Some html
             ∧ html ≠ EmptyString
             ∧ requests st' = S (S (requests st))
             ∧ scraped_data st' =
                 store url (scrape_page (S (requests st)) url) (scraped_data st)
             ∧ ((depth < max_depth self
                 ∧ ∃ links, _extract_links self ({[ url ]} ∪ visited st) html url
                            = Some links
                      ∧ queue st' = rest ++ ((λ link, (link, depth + 1)) <$>
                          filter (λ link, link ∉ ({[ url ]} ∪ visited st)) links))
                ∨ (depth = max_depth self ∧ queue st' = rest))))).
Proof.
  unfold crawl_task.
  destruct (bool_decide_reflect (url ∈ visited st)) as [Hv|Hv]; simpl.
  { intros [= <-]. left. simpl. by repeat split; try left. }
  destruct (Z.ltb_spec (max_depth self) depth) as [Hd|Hd].
  { intros [= <-]. left. simpl. by repeat split; try right. }
  intros Hstep. right. split; [done|]. split; [done|].
  destruct (_get_page_content (requests st) url) as [html|] eqn:Hget.
  2:{ injection Hstep as <-. simpl. repeat split; try done. left.
      repeat split; try done. by left. }
  destruct (truthy (Some html)) eqn:Ht.
  2:{ injection Hstep as <-. simpl. repeat split; try done. left.
      repeat split; try done. right. rewrite Hget. f_equal.
      simpl in Ht. apply negb_false_iff in Ht.
      by destruct (String.eqb_spec html EmptyString). }
  apply truthy_Some in Ht.
  destruct (Z.ltb_spec depth (max_depth self)) as [Hlt|Hge].
  - destruct (_extract_links self ({[url]} ∪ visited st) html url) as [links|] eqn:Hl;
      [|done].
    simpl in Hstep. injection Hstep as <-. simpl. repeat split; try done.
    right. exists html. repeat split; try done. left. split; [done|].
    by exists links.
  - injection Hstep as <-. simpl. repeat split; try done.
    right. exists html. repeat split; try done. right. split; [lia | done].
Qed.

(** A property that holds at the start and that every turn keeps holds in
    every state of the run. *)
Lemma reachable_invariant self st0 (P : state → Prop) :
  P st0 →
  (∀ st url depth rest st',
     P st → queue st = (url, depth) :: rest →
     crawl_task self st url depth rest = Some st' → P st') →
  ∀ st, reachable self st0 st → P st.
Proof.
  intros H0 Hstep st Hr. induction Hr as [|st st' Hr IH Hq Hs]; [done|].
  unfold crawl_step in Hs. destruct (queue st) as [|[url depth] rest] eqn:Eq; [done|].
  by eapply Hstep.
Qed.

Lemma store_keys url text_content (data : PyDict.dict string) k :
  k ∈ (store url text_content data).*1 → k = url ∨ k ∈ data.*1.
Proof.
  unfold store. destruct text_content as [text|]; [|by right].
  destruct (truthy (Some text)); [|by right]. by rewrite dict_keys_set.
Qed.

Lemma new_consistent start max self st0 :
  new start max = Some (self, st0) → consistent self st0.
Proof.
  unfold new. destruct (urlparse start) as [parsed|] eqn:Hp; [|done]. simpl.
  intros [= <- <-]. unfold consistent. simpl. split; [|split; [|split; [|split]]].
  - intros url depth Hin. apply list_elem_of_singleton in Hin as [= -> ->].
    split; [apply (discovered_seed {| start_url := start |})|].
    split; [by exists parsed|]. split; [done | by right].
  - intros url depth Hin. by apply elem_of_nil in Hin.
  - intros url. rewrite elem_of_nil. split; [|done]. apply not_elem_of_empty.
  - apply NoDup_nil_2.
  - intros url Hin. by apply elem_of_nil in Hin.
Qed.

(** Every turn of the loop keeps the state consistent. *)
Lemma crawl_task_consistent self st url depth rest st' :
  consistent self st → queue st = (url, depth) :: rest →
  crawl_task self st url depth rest = Some st' → consistent self st'.
Proof.
  intros (Hq & Hd & Hv & Hnd & Hs) Eq Hstep.
  assert (Hhead : discovered self url ∧ in_domain self url ∧ 0 ≤ depth
                  ∧ (depth ≤ max_depth self ∨ (url, depth) = (start_url self, 0))).
  { apply Hq. rewrite Eq. apply list_elem_of_here. }
  assert (Hrest : ∀ u d, (u, d) ∈ rest → (u, d) ∈ queue st).
  { intros u d Hin. rewrite Eq. by apply list_elem_of_further. }
  destruct Hhead as (Hdisc & Hdom & Hd0 & Hdmax).
  apply crawl_task_cases in Hstep
    as [(_ & Ev & Eq' & Es & _ & Ed)|(Hnv & Hle & Ev & Ed & Hcase)].
  { unfold consistent. rewrite Ev, Eq', Es, Ed.
    split; [|done]. intros u d Hin. by apply Hq, Hrest. }
  assert (Hd' : ∀ u d, (u, d) ∈ dispatched st' →
            discovered self u ∧ in_domain self u ∧ 0 ≤ d ≤ max_depth self).
  { intros u d. rewrite Ed, elem_of_app, list_elem_of_singleton.
    intros [Hin|[= -> ->]]; [by apply Hd | done]. }
  assert (Hv' : ∀ u, u ∈ visited st' ↔ u ∈ (dispatched st').*1).
  { intros u. rewrite Ev, Ed, fmap_app, elem_of_app, elem_of_union, elem_of_singleton.
    simpl. rewrite list_elem_of_singleton, Hv. tauto. }
  assert (Hnd' : NoDup (dispatched st').*1).
  { rewrite Ed, fmap_app. apply NoDup_app. split; [done|]. split.
    - intros u Hu Hu'. apply list_elem_of_singleton in Hu'. simpl in Hu'. subst u.
      by apply Hnv, Hv.
    - apply NoDup_singleton. }
  assert (Hs0 : ∀ u, u ∈ (scraped_data st).*1 → u ∈ visited st').
  { intros u Hu. rewrite Ev. apply elem_of_union. right. by apply Hs. }
  destruct Hcase as [(_ & Eq' & Es & _)|(html & Hget & Hne & _ & Es & Hq')].
  { unfold consistent. rewrite Eq', Es.
    split; [|split; [|split; [|split]]]; try done.
    intros u d Hin. by apply Hq, Hrest. }
  assert (Hs' : ∀ u, u ∈ (scraped_data st').*1 → u ∈ visited st').
  { intros u. rewrite Es. intros Hu. apply store_keys in Hu as [->|Hu]; [|by apply Hs0].
    rewrite Ev. apply elem_of_union. left. by apply elem_of_singleton. }
  unfold consistent. split; [|split; [|split; [|split]]]; try done.
  destruct Hq' as [(Hlt & links & Hl & Eq')|(_ & Eq')]; rewrite Eq'.
  2:{ intros u d Hin. by apply Hq, Hrest. }
  intros u d. rewrite elem_of_app. intros [Hin|Hin]; [by apply Hq, Hrest|].
  apply list_elem_of_fmap in Hin as (link & [= -> ->] & Hin).
  apply list_elem_of_filter in Hin as [_ Hin].
  destruct (extract_hrefs_spec _ _ _ _ _ Hl link Hin) as ((href & Hh & Hj) & Hdl & _).
  split; [by eapply discovered_link|]. split; [done|]. split; [lia|]. left. lia.
Qed.

Lemma reachable_consistent start max self st0 st :
  new start max = Some (self, st0) → reachable self st0 st → consistent self st.
Proof.
  intros Hnew. apply reachable_invariant.
  - by eapply new_consistent.
  - apply crawl_task_consistent.
Qed.

End WebScraperFacts.

(** ** [OllamaWebCrawlerService]: the crawl under any schedule *)

Section OllamaCrawlFacts.
Import PyStr Lib Ollama.
Context `{!Libraries}.
Implicit Types (self : service) (st : state) (c : call).

(** The test of [is_valid_url], read as a proposition. *)
Lemma is_valid_url_spec self (V : gset string) u :
  is_valid_url self V u = true ↔ in_scope self u ∧ u ∉ V.
Proof.
  unfold is_valid_url, in_scope. destruct (urlparse u) as [parsed|]; simpl.
  - rewrite !andb_true_iff, orb_true_iff, bool_decide_eq_true, !String.eqb_eq.
    split.
    + intros [[Hs Hn] Hv]. split; [by exists parsed | done].
    + intros [(p & [= <-] & Hs & Hn) Hv]. done.
  - split; [done | intros [(p & ? & _) _]; done].
Qed.

Lemma elem_of_become {A} (l : list A) i x y :
  y ∈ <[i := x]> l → y = x ∨ y ∈ l.
Proof.
  revert i; induction l as [|a l IH]; intros [|i]; simpl; try by right.
  - rewrite !elem_of_cons. intros [->|?]; auto.
  - rewrite !elem_of_cons. intros [->|Hy]; [auto|].
    apply IH in Hy as [->|?]; auto.
Qed.

Lemma stored_insert_or_replace row table u :
  stored (insert_or_replace row table) u ↔ u = url row ∨ stored table u.
Proof.
  unfold stored, insert_or_replace.
  rewrite fmap_app, elem_of_app, !list_elem_of_fmap. simpl. split.
  - intros [(r & -> & Hr)|(r & -> & Hr)].
    + apply list_elem_of_filter in Hr as [_ Hr]. right. by exists r.
    + apply list_elem_of_singleton in Hr as ->. by left.
  - intros [->|(r & -> & Hr)].
    + right. exists row. split; [done | by apply list_elem_of_singleton].
    + destruct (decide (url r = url row)) as [Heq|Hne].
      * right. exists row. split; [done | by apply list_elem_of_singleton].
      * left. exists r. split; [done|]. by apply list_elem_of_filter.
Qed.

Lemma extract_content_url u html row :
  extract_content u html = Some row → url row = u.
Proof.
  unfold extract_content. destruct (mapM _ _); simpl; [|done]. by intros [= <-].
Qed.

Lemma call_ok_insert self row table c :
  call_ok self table c → call_ok self (insert_or_replace row table) c.
Proof.
  unfold call_ok. destruct c; try done.
  intros (? & ? & ? & ? & ? & ?). repeat split; try done.
  apply stored_insert_or_replace. by right.
Qed.

Lemma start_crawling_consistent base mdl max table self st0 :
  new base mdl max table = Some (self, st0) →
  consistent self (start_crawling self st0).
Proof.
  unfold new. destruct (urlparse base) as [parsed|]; [|done]. simpl.
  intros [= <- <-]. unfold consistent, start_crawling. simpl.
  split; [|split].
  - intros c Hc. apply list_elem_of_singleton in Hc as ->.
    split; [apply (discovered_seed {| base_url := base |})|].
    split; [done | by right].
  - intros u d Hin. by apply elem_of_nil in Hin.
  - intros u Hin. by apply not_elem_of_empty in Hin.
Qed.

(** Every move of every call keeps the state consistent. *)
Lemma crawl_step_consistent self i st :
  consistent self st → consistent self (crawl_step self i st).
Proof.
  intros (Hcalls & Hfetched & Hvisited). unfold crawl_step.
  destruct (calls st !! i) as [c|] eqn:Hi; [|done].
  assert (Hc : call_ok self (web_pages st) c).
  { apply Hcalls. by eapply list_elem_of_lookup_2. }
  assert (Hleave : ∀ c', c' ∈ leave st i → call_ok self (web_pages st) c').
  { intros c' Hc'. apply Hcalls. by eapply list_elem_of_delete_inv. }
  assert (Hbecome : ∀ x, call_ok self (web_pages st) x →
            ∀ c', c' ∈ become st i x → call_ok self (web_pages st) c').
  { intros x Hx c' Hc'. apply elem_of_become in Hc' as [->|?]; [done | by apply Hcalls]. }
  destruct c as [u d|u d|u d html|u d html|u d links]; cbn [crawl_page_step].
  - (* line 127 *)
    destruct Hc as (Hdisc & Hd0 & Hc). simpl in *.
    destruct (Z.ltb_spec (max_depth self) d) as [Hd|Hd]; simpl.
    { by split. }
    destruct (is_valid_url self (visited_urls st) u) eqn:Hvalid; simpl.
    2:{ by split. }
    apply is_valid_url_spec in Hvalid as [Hscope _].
    split; [|done]. simpl. apply Hbecome. by split.
  - (* line 131 *)
    destruct Hc as (Hdisc & Hd0 & Hscope & Hd). simpl in *.
    split; [|split; [|done]]; simpl.
    + destruct (requests_get (requests st) u) as [|code text] eqn:Hget; [done|].
      destruct (raise_for_status code) eqn:Hraise; [done|].
      apply Hbecome. repeat split; try done. by exists (requests st), code.
    + intros u' d'. rewrite elem_of_app, list_elem_of_singleton.
      intros [Hin|[= -> ->]]; [by apply Hfetched | done].
  - (* lines 133-151 *)
    destruct Hc as (Hdisc & Hd0 & Hscope & Hd & Hfrom). simpl in *.
    destruct (extract_content u html) as [page_data|] eqn:Hex.
    2:{ by split. }
    pose proof (extract_content_url _ _ _ Hex) as Hurl.
    split; [|split; [done|]]; simpl.
    + intros c' Hc'. apply elem_of_become in Hc' as [->|Hc'].
      * repeat split; try done. apply stored_insert_or_replace. by left.
      * apply call_ok_insert. by apply Hcalls.
    + intros u' Hu'. destruct (Hvisited u' Hu') as (? & ? & ?).
      repeat split; try done. apply stored_insert_or_replace. by right.
  - (* line 153 and the list of lines 157-160 *)
    destruct Hc as (Hdisc & Hd0 & Hscope & Hd & Hfrom & Hstored). simpl in *.
    split; [|split; [done|]]; simpl.
    + destruct (Z.ltb_spec d (max_depth self)) as [Hlt|Hge]; [|done].
      destruct (mapM (urljoin u) (soup_hrefs html)) as [links|] eqn:Hlinks; [|done].
      apply Hbecome. repeat split; try done.
      intros link Hlink. apply mapM_Some in Hlinks.
      apply list_elem_of_lookup in Hlink as [j Hj].
      destruct (Forall2_lookup_r _ _ _ _ _ Hlinks Hj) as (href & Hhref & Hjoin).
      eapply discovered_link; [done | done | by eapply list_elem_of_lookup_2 | done].
    + intros u' Hu'. apply elem_of_union in Hu' as [Hu'|Hu']; [|by apply Hvisited].
      apply elem_of_singleton in Hu' as ->. done.
  - (* lines 164-167 *)
    destruct Hc as (Hdisc & Hd0 & Hscope & Hd & Hlinks). simpl in *.
    destruct links as [|link links]; [by split|].
    split; [|done]. simpl.
    assert (Hrest : ∀ c', c' ∈ become st i (Submitting u d links) →
              call_ok self (web_pages st) c').
    { apply Hbecome. repeat split; try done.
      intros l Hl. apply Hlinks. by apply list_elem_of_further. }
    destruct (is_valid_url self (visited_urls st) link) eqn:Hvalid; [|done].
    apply is_valid_url_spec in Hvalid as [Hscope' _].
    intros c'. rewrite elem_of_app, list_elem_of_singleton.
    intros [Hc' | ->]; [by apply Hrest|].
    split; [apply Hlinks, list_elem_of_here|]. simpl. split; [lia|].
    left. split; [done | lia].
Qed.

(** A property that holds when the first call is submitted and that every
    move keeps holds after every schedule. *)
Lemma run_invariant self st0 (P : state → Prop) :
  P (start_crawling self st0) →
  (∀ i st, P st → P (crawl_step self i st)) →
  ∀ schedule, P (run self schedule st0).
Proof.
  intros H0 Hstep schedule. unfold run.
  generalize dependent (start_crawling self st0).
  induction schedule as [|i schedule IH]; intros st Hst; cbn [foldl]; [done|].
  apply IH. by apply Hstep.
Qed.

Lemma run_consistent base mdl max table self st0 schedule :
  new base mdl max table = Some (self, st0) →
  consistent self (run self schedule st0).
Proof.
  intros Hnew. apply run_invariant.
  - by eapply start_crawling_consistent.
  - intros i st. apply crawl_step_consistent.
Qed.

End OllamaCrawlFacts.

(** ** The crawlers: what the runs guarantee *)

Section CrawlFacts.
Import PyStr Lib.
Context `{!Libraries}.

Lemma turns_reachable n self st0 st :
  WebScraper.reachable self st0 st →
  WebScraper.reachable self st0 (WebScraper.turns n self st).
Proof.
  revert st; induction n as [|n IH]; intros st Hr; cbn [WebScraper.turns]; [done|].
  destruct (WebScraper.queue st) as [|t rest] eqn:Eq; [done|].
  destruct (WebScraper.crawl_step self st) as [st'|] eqn:Hs; [|done].
  apply IH. eapply WebScraper.reachable_turn; [done | by rewrite Eq | done].
Qed.



(** [_extract_links] lets through every anchor of the crawl domain that
    is not visited. *)
Lemma extract_hrefs_complete self (V : gset string) current_url hrefs links :
  WebScraper.extract_hrefs self V current_url hrefs = Some links →
  ∀ href link, href ∈ hrefs → urljoin current_url href = Some link →
    WebScraper.in_domain self link → link ∉ V → link ∈ links.
Proof.
  revert links; induction hrefs as [|h hrefs IH]; intros links; simpl.
  - intros _ href link Hin. by apply elem_of_nil in Hin.
  - destruct (urljoin current_url h) as [absolute_url|] eqn:Hj; [|done]. simpl.
    destruct (urlparse absolute_url) as [parsed|] eqn:Hp; [|done]. simpl.
    destruct (WebScraper.extract_hrefs self V current_url hrefs) as [links'|]; [|done].
    simpl. intros [= <-] href link Hin Hjoin (p & Hpl & Hnet) Hv.
    apply elem_of_cons in Hin as [->|Hin].
    + rewrite Hj in Hjoin. injection Hjoin as ->. rewrite Hp in Hpl.
      injection Hpl as ->. rewrite Hnet, String.eqb_refl.
      rewrite bool_decide_eq_true_2 by done. apply list_elem_of_here.
    + assert (link ∈ links') by (eapply IH; try done; by exists p).
      destruct (_ && _); [by apply list_elem_of_further | done].
Qed.

(** C2, as the code has it: [WebScraper.crawl] adds a URL to the visited
    set when its task is taken from the queue and handed to the fetcher,
    before the request and whatever its result; the visited set is the set
    of URLs handed to the fetcher, and none is handed twice.
    [OllamaWebCrawlerService.crawl_page] adds a URL only once its row is
    in the table. *)
Theorem visited_marked_at_dispatch
    start max self st0 st base mdl omax table oself ost0 schedule :
  WebScraper.new start max = Some (self, st0) →
  WebScraper.reachable self st0 st →
  Ollama.new base mdl omax table = Some (oself, ost0) →
  let ost := Ollama.run oself schedule ost0 in
  (∀ u, u ∈ WebScraper.visited st ↔ u ∈ (WebScraper.dispatched st).*1)
  ∧ NoDup (WebScraper.dispatched st).*1
  ∧ (∀ u d rest st',
       WebScraper.queue st = (u, d) :: rest →
       u ∉ WebScraper.visited st → d ≤ WebScraper.max_depth self →
       WebScraper.crawl_step self st = Some st' →
       u ∈ WebScraper.visited st'
       ∧ WebScraper.dispatched st' = WebScraper.dispatched st ++ [(u, d)])
  ∧ (∀ u, u ∈ Ollama.visited_urls ost → Ollama.stored (Ollama.web_pages ost) u).
Proof.
  intros Hnew Hreach Honew ost.
  destruct (reachable_consistent _ _ _ _ _ Hnew Hreach) as (_ & _ & Hv & Hnd & _).
  destruct (run_consistent _ _ _ _ _ _ schedule Honew) as (_ & _ & Hvisited).
  fold ost in Hvisited.
  split; [done|]. split; [done|]. split.
  - intros u d rest st' Eq Hnv Hd Hstep. unfold WebScraper.crawl_step in Hstep.
    rewrite Eq in Hstep.
    apply crawl_task_cases in Hstep as [([?|?] & _)|(_ & _ & Ev & Ed & _)];
      [done | lia |].
    split; [|done]. rewrite Ev. apply elem_of_union. left. by apply elem_of_singleton.
  - intros u Hu. by destruct (Hvisited u Hu) as (_ & _ & ?).
Qed.



(** C5, as the code has it: every URL in the visited set, in the queue or
    held by a running call is the seed as it was given, or the absolute
    URL [urljoin] returned for an anchor of a fetched page, unchanged;
    [sanitize_url] is applied nowhere. *)
Theorem urls_kept_as_discovered
    start max self st0 st base mdl omax table oself ost0 schedule :
  WebScraper.new start max = Some (self, st0) →
  WebScraper.reachable self st0 st →
  Ollama.new base mdl omax table = Some (oself, ost0) →
  let ost := Ollama.run oself schedule ost0 in
  (∀ u, u ∈ WebScraper.visited st → WebScraper.discovered self u)
  ∧ (∀ u d, (u, d) ∈ WebScraper.queue st → WebScraper.discovered self u)
  ∧ (∀ u, u ∈ Ollama.visited_urls ost → Ollama.discovered oself u)
  ∧ (∀ c, c ∈ Ollama.calls ost → Ollama.discovered oself (Ollama.url_of c))
  ∧ (∀ u d, (u, d) ∈ Ollama.fetched ost → Ollama.discovered oself u).
Proof.
  intros Hnew Hreach Honew ost.
  destruct (reachable_consistent _ _ _ _ _ Hnew Hreach) as (Hq & Hd & Hv & _).
  destruct (run_consistent _ _ _ _ _ _ schedule Honew) as (Hcalls & Hfetched & Hvisited).
  fold ost in Hcalls, Hfetched, Hvisited.
  split; [|split; [|split; [|split]]].
  - intros u Hu. apply Hv in Hu. apply list_elem_of_fmap in Hu as ([u' d] & -> & Hin).
    by destruct (Hd u' d Hin) as (? & _).
  - intros u d Hin. by destruct (Hq u d Hin) as (? & _).
  - intros u Hu. by destruct (Hvisited u Hu) as (? & _).
  - intros c Hc. by destruct (Hcalls c Hc) as (? & _).
  - intros u d Hin. by destruct (Hfetched u d Hin) as (? & _).
Qed.

(** C6, as the code has it: in both crawlers a link whose host is not the
    host of the seed is never queued, never submitted and never fetched;
    [is_valid_url] accepts a URL exactly when its scheme is [http] or
    [https], its host is the crawl domain and it is not visited;
    the filter of [WebScraper._extract_links] accepts an anchor exactly
    when its host is the crawl domain and it is not visited, whatever its
    scheme. *)
Theorem domain_scoping
    start max self st0 st base mdl omax table oself ost0 schedule :
  WebScraper.new start max = Some (self, st0) →
  WebScraper.reachable self st0 st →
  Ollama.new base mdl omax table = Some (oself, ost0) →
  let ost := Ollama.run oself schedule ost0 in
  (∃ parsed, urlparse start = Some parsed
             ∧ WebScraper.domain self = netloc parsed)
  ∧ (∃ parsed, urlparse base = Some parsed
               ∧ Ollama.base_domain oself = netloc parsed)
  ∧ (∀ u d, WebScraper.host_differs self u →
       ((u, d) ∉ WebScraper.queue st) ∧ ((u, d) ∉ WebScraper.dispatched st))
  ∧ (∀ u, Ollama.host_differs oself u →
       (∀ c, c ∈ Ollama.calls ost → Ollama.url_of c ≠ u)
       ∧ (∀ d, (u, d) ∉ Ollama.fetched ost))
  ∧ (∀ (V : gset string) u,
       Ollama.is_valid_url oself V u = true ↔
       (∃ parsed, urlparse u = Some parsed
                  ∧ (scheme parsed = "http" ∨ scheme parsed = "https")
                  ∧ netloc parsed = Ollama.base_domain oself)
       ∧ u ∉ V)
  ∧ (∀ (V : gset string) html current_url links,
       WebScraper._extract_links self V html current_url = Some links →
       ∀ link, link ∈ links ↔
         (∃ href, href ∈ soup_hrefs html ∧ urljoin current_url href = Some link)
         ∧ (∃ parsed, urlparse link = Some parsed
                      ∧ netloc parsed = WebScraper.domain self)
         ∧ link ∉ V).
Proof.
  intros Hnew Hreach Honew ost.
  destruct (reachable_consistent _ _ _ _ _ Hnew Hreach) as (Hq & Hd & _).
  destruct (run_consistent _ _ _ _ _ _ schedule Honew) as (Hcalls & Hfetched & _).
  fold ost in Hcalls, Hfetched.
  assert (Hseed : ∃ parsed, urlparse base = Some parsed
                            ∧ Ollama.base_domain oself = netloc parsed).
  { unfold Ollama.new in Honew. destruct (urlparse base) as [parsed|]; [|done].
    simpl in Honew. injection Honew as <- <-. by exists parsed. }
  split; [|split; [done|split; [|split; [|split]]]].
  - unfold WebScraper.new in Hnew. destruct (urlparse start) as [parsed|]; [|done].
    simpl in Hnew. injection Hnew as <- <-. by exists parsed.
  - intros u d Hdiff. split; intros Hin.
    + destruct (Hq u d Hin) as (_ & (p & Hp & Hn) & _). by apply (Hdiff p).
    + destruct (Hd u d Hin) as (_ & (p & Hp & Hn) & _). by apply (Hdiff p).
  - intros u Hdiff. split.
    + intros c Hc <-. destruct (Hcalls c Hc) as (_ & _ & Hok).
      assert (Hbase : Ollama.url_of c = Ollama.base_url oself → False).
      { intros Hu. destruct Hseed as (p & Hp & Hn). apply (Hdiff p); [|done].
        rewrite Hu. unfold Ollama.new in Honew. rewrite Hp in Honew.
        simpl in Honew. by injection Honew as <- <-. }
      assert (Hscope : Ollama.in_scope oself (Ollama.url_of c) → False).
      { intros (p & Hp & _ & Hn). by apply (Hdiff p). }
      destruct c as [u d|u d|u d html|u d html|u d links]; simpl in *;
        try (apply Hscope; tauto).
      destruct Hok as [[? _]|[= -> _]]; [by apply Hscope | by apply Hbase].
    + intros d Hin. destruct (Hfetched u d Hin) as (_ & (p & Hp & _ & Hn) & _).
      by apply (Hdiff p).
  - intros V u. apply is_valid_url_spec.
  - intros V html current_url links Hl link. split.
    + intros Hin. by apply (extract_hrefs_spec _ _ _ _ _ Hl).
    + intros ((href & Hh & Hj) & Hdom & Hv).
      by eapply (extract_hrefs_complete _ _ _ _ _ Hl).
Qed.


End CrawlFacts.

(** ** [semantic_search] when the model gives nothing *)

Section SemanticSearchFacts.
Import PyStr Lib Ollama.
Context `{!Libraries}.

Lemma ollama_request_unavailable self n prompt max_tokens :
  unavailable (requests_post n (model self) prompt max_tokens) →
  ollama_request self n prompt max_tokens = EmptyString.
Proof.
  unfold ollama_request, unavailable.
  destruct (requests_post n (model self) prompt max_tokens) as [|code json]; [done|].
  destruct (Z.eqb_spec code 200) as [->|]; [|done].
  intros [?|[->|[->| ->]]]; done.
Qed.

(** C1, as the code has it: when the model gives no completion (the
    request raises, the status is not 200, or the response is empty),
    [semantic_search] does not raise, and it returns the empty list
    whatever the table holds: there is no search term, SQLite rejects the
    statement, and the [except] clause returns [[]]. No raw-query matching
    takes place. *)
Theorem semantic_search_without_model self n query limit table :
  unavailable (requests_post n (model self) (intent_prompt query) 100) →
  ollama_request self n (intent_prompt query) 100 = EmptyString
  ∧ search_terms EmptyString = []
  ∧ semantic_search_body self n query limit table = None
  ∧ semantic_search self n query limit table = [].
Proof.
  intros Hdown. apply ollama_request_unavailable in Hdown.
  unfold semantic_search, semantic_search_body. rewrite Hdown.
  by repeat split.
Qed.

End SemanticSearchFacts.

(** ** Runs on the small web *)

Section Runs.
Import Lib Fixture.

Lemma not_elem_of_by_test (x : string) (X : gset string) :
  bool_decide (x ∈ X) = false → x ∉ X.
Proof. apply bool_decide_eq_false. Qed.

Lemma elem_of_by_test (x : string) (X : gset string) :
  bool_decide (x ∈ X) = true → x ∈ X.
Proof. apply bool_decide_eq_true. Qed.

Lemma example_scraper_new :
  @WebScraper.new example_web "http://example.com/" 1
  = Some (example_scraper, example_scraper_state).
Proof. reflexivity. Qed.

Lemma example_service_new :
  @Ollama.new example_web "http://example.com/" "llama2" 1 []
  = Some (example_service, example_service_state).
Proof. reflexivity. Qed.

Lemma example_reachable n :
  @WebScraper.reachable example_web example_scraper example_scraper_state
    (@WebScraper.turns example_web n example_scraper example_scraper_state).
Proof. apply turns_reachable. apply WebScraper.reachable_start. Qed.


(** The premises of C2 (as amended) hold on the example site. *)
Lemma visited_marked_at_dispatch_witness :
  NoDup (WebScraper.dispatched
           (@WebScraper.turns example_web 3 example_scraper example_scraper_state)).*1.
Proof.
  exact (proj1 (proj2 (@visited_marked_at_dispatch example_web _ _ _ _ _ _ _ _ _ _ _
                         [0; 0; 0; 0]%nat
                         example_scraper_new (example_reachable 3) example_service_new))).
Defined.


(** The premises of C5 (as amended) hold on the example site. *)
Lemma urls_kept_as_discovered_witness :
  @WebScraper.discovered example_web example_scraper "http://example.com/a".
Proof.
  assert (Hin : "http://example.com/a" ∈ WebScraper.visited
                  (@WebScraper.turns example_web 3 example_scraper example_scraper_state))
    by (apply elem_of_by_test; vm_compute; reflexivity).
  exact (proj1 (@urls_kept_as_discovered example_web _ _ _ _ _ _ _ _ _ _ _
                  [0; 0; 0; 0]%nat
                  example_scraper_new (example_reachable 3) example_service_new)
           "http://example.com/a" Hin).
Defined.

(** The premises of C6 (as amended) hold on the example site: the link to
    [other.com] is never queued and never fetched. *)
Lemma domain_scoping_witness :
  (("http://other.com/x", 1) ∉ WebScraper.queue
     (@WebScraper.turns example_web 1 example_scraper example_scraper_state))
  ∧ (("http://other.com/x", 1) ∉ WebScraper.dispatched
       (@WebScraper.turns example_web 1 example_scraper example_scraper_state)).
Proof.
  assert (Hdiff : @WebScraper.host_differs example_web example_scraper
                    "http://other.com/x").
  { intros parsed Hp. vm_compute in Hp. injection Hp as <-. simpl. congruence. }
  exact (proj1 (proj2 (proj2 (@domain_scoping example_web _ _ _ _ _ _ _ _ _ _ _
                  [0; 0; 0; 0]%nat
                  example_scraper_new (example_reachable 1) example_service_new)))
           "http://other.com/x" 1 Hdiff).
Defined.

Lemma ftp_scraper_new :
  @WebScraper.new dead_web "ftp://example.com/" 1
  = Some (ftp_scraper, ftp_scraper_state).
Proof. reflexivity. Qed.




(** The premise of C1 (as amended) holds when the model server is down. *)
Lemma semantic_search_without_model_witness :
  @Ollama.semantic_search dead_web example_service 0 "hello" 5 one_page = [].
Proof.
  assert (Hdown : unavailable (@requests_post dead_web 0
                    (Ollama.model example_service) (Ollama.intent_prompt "hello") 100))
    by exact I.
  exact (proj2 (proj2 (proj2 (@semantic_search_without_model dead_web
                                example_service 0 "hello" 5 one_page Hdown)))).
Defined.

(** Against C1 as stated: the model server is down, the table holds a
    page whose content contains the query, and the search returns
    nothing, where matching the raw query would return that page. *)
Lemma raw_query_fallback_counterexample :
  unavailable (@requests_post dead_web 0 (Ollama.model example_service)
                 (Ollama.intent_prompt "hello") 100)
  ∧ url <$> Ollama.raw_query_matches "hello" one_page = ["http://example.com/"]
  ∧ Ollama.r_url <$> @Ollama.semantic_search dead_web example_service 0 "hello" 5 one_page
    = [].
Proof. split; [exact I|]. split; reflexivity. Qed.

(** Against C2 as stated: after the first turn of [WebScraper.crawl] on a
    seed page that links twice to [/a], the queue holds [/a] twice and the
    visited set does not hold it; and while [crawl_page] has the response
    to its request for the seed in hand, the seed is not in
    [visited_urls]. *)
Lemma enqueued_twice_counterexample :
  let st := @WebScraper.turns twice_linked_web 1 example_scraper example_scraper_state in
  let ost := @Ollama.run twice_linked_web example_service [0; 0]%nat
               example_service_state in
  @WebScraper.new twice_linked_web "http://example.com/" 1
  = Some (example_scraper, example_scraper_state)
  ∧ WebScraper.queue st
    = [("http://example.com/a", 1); ("http://example.com/a", 1)]
  ∧ ("http://example.com/a" ∉ WebScraper.visited st)
  ∧ ¬ NoDup (WebScraper.queue st).*1
  ∧ Ollama.fetched ost = [("http://example.com/", 0)]
  ∧ ("http://example.com/" ∉ Ollama.visited_urls ost).
Proof.
  cbv zeta. split; [reflexivity|]. split; [vm_compute; reflexivity|].
  split; [apply not_elem_of_by_test; vm_compute; reflexivity|].
  split.
  - replace (WebScraper.queue _).*1
      with ["http://example.com/a"; "http://example.com/a"]
      by (vm_compute; reflexivity).
    intros Hnd. apply NoDup_cons in Hnd as [Hnin _]. apply Hnin, list_elem_of_here.
  - split; [vm_compute; reflexivity|].
    apply not_elem_of_by_test. vm_compute. reflexivity.
Qed.


(** Against C5 as stated: the seed page links to [/a?x=1] and [/a?x=2];
    the two differ only in their query, [sanitize_url] sends both to
    [/a], and both are fetched, each under its own string, which the
    visited set holds as it is. *)
Lemma not_normalized_counterexample :
  let st := @WebScraper.turns two_queries_web 3 example_scraper example_scraper_state in
  WebScraper.dispatched st
  = [("http://example.com/", 0); ("http://example.com/a?x=1", 1);
     ("http://example.com/a?x=2", 1)]
  ∧ "http://example.com/a?x=1" ∈ WebScraper.visited st
  ∧ @Ollama.sanitize_url two_queries_web "http://example.com/a?x=1"
    = "http://example.com/a"
  ∧ @Ollama.sanitize_url two_queries_web "http://example.com/a?x=2"
    = "http://example.com/a".
Proof.
  cbv zeta. split; [vm_compute; reflexivity|]. split; [|split; reflexivity].
  apply elem_of_by_test. vm_compute. reflexivity.
Qed.

(** Against C6 as stated: [WebScraper] accepts a link whose scheme is
    [ftp], queues it and hands it to the fetcher. *)
Lemma scheme_not_tested_counterexample :
  scheme <$> @Lib.urlparse ftp_link_web "ftp://example.com/file" = Some "ftp"
  ∧ WebScraper.queue
      (@WebScraper.turns ftp_link_web 1 example_scraper example_scraper_state)
    = [("ftp://example.com/file", 1)]
  ∧ WebScraper.dispatched
      (@WebScraper.turns ftp_link_web 2 example_scraper example_scraper_state)
    = [("http://example.com/", 0); ("ftp://example.com/file", 1)].
Proof. split; [reflexivity|]. split; vm_compute; reflexivity. Qed.


(** Against C9 as stated: the focus [hello] occurs in this document in
    the source of a script only; the [div] around it has no text, and the
    code returns the empty text for it, where no text node contains the
    focus. *)
Lemma script_focus_counterexample :
  EmptyString
    ∈ @Portal.scrape_portal_content PyStr.latin1 (Some "hello")
        (Portal.BeautifulSoup
           [Portal.Tag "div"
              [Portal.Tag "script"
                 [Portal.NavigableString Portal.Script "hello()"]]])
  ∧ ¬ @Portal.targeted_extraction PyStr.latin1 (Some "hello")
        (Portal.BeautifulSoup
           [Portal.Tag "div"
              [Portal.Tag "script"
                 [Portal.NavigableString Portal.Script "hello()"]]])
        EmptyString.
Proof.
  split.
  - apply elem_of_by_test. vm_compute. reflexivity.
  - intros (p & cls & s & d & Hn & Ht & _).
    destruct p as [|[|i] [|[|j] [|[|k] [|l p]]]]; try discriminate Hn.
    simpl in Hn. injection Hn as <- <-. discriminate Ht.
Qed.

End Runs.

(** ** More on strings *)

Section PyStrMore.
Import PyStr.

Lemma append_cons (x : ascii) (a b : string) :
  String x a +:+ b = String x (a +:+ b).
Proof. reflexivity. Qed.

Lemma append_assoc (a b c : string) : (a +:+ b) +:+ c = a +:+ (b +:+ c).
Proof. induction a as [|x a IH]; [done|]. by rewrite !append_cons, IH. Qed.

Lemma append_empty_r (a : string) : a +:+ EmptyString = a.
Proof. induction a as [|x a IH]; [done|]. by rewrite append_cons, IH. Qed.

Lemma ascii_lower_append (a b : string) :
  ascii_lower (a +:+ b) = ascii_lower a +:+ ascii_lower b.
Proof.
  induction a as [|x a IH]; [done|].
  rewrite append_cons. cbn [ascii_lower]. by rewrite append_cons, IH.
Qed.

Lemma occurs_at_ascii_lower (sub s : string) (i : nat) :
  occurs_at sub s i → occurs_at (ascii_lower sub) (ascii_lower s) i.
Proof.
  intros (pre & post & -> & <-). exists (ascii_lower pre), (ascii_lower post).
  by rewrite !ascii_lower_append, length_ascii_lower.
Qed.

Lemma is_ascii_append (a b : string) :
  is_ascii (a +:+ b) = is_ascii a && is_ascii b.
Proof.
  induction a as [|x a IH]; [done|].
  rewrite append_cons. cbn [is_ascii]. by rewrite IH, andb_assoc.
Qed.

Lemma substring_nil (a n : nat) : String.substring a n EmptyString = EmptyString.
Proof. by destruct a, n. Qed.

Lemma length_substring_le (a n : nat) (s : string) :
  (String.length (String.substring a n s) ≤ n)%nat.
Proof.
  revert a n; induction s as [|c s IH]; intros a n.
  - rewrite substring_nil. simpl. lia.
  - destruct a as [|a]; simpl.
    + destruct n as [|n]; simpl; [lia|]. specialize (IH 0%nat n). lia.
    + apply IH.
Qed.

Lemma ascii_lower_substring (a n : nat) (s : string) :
  ascii_lower (String.substring a n s) = String.substring a n (ascii_lower s).
Proof.
  revert a n; induction s as [|c s IH]; intros a n.
  - cbn [ascii_lower]. by rewrite !substring_nil.
  - destruct a as [|a]; simpl.
    + destruct n as [|n]; simpl; [done|]. by rewrite IH.
    + apply IH.
Qed.

Lemma is_ascii_substring (a n : nat) (s : string) :
  is_ascii s = true → is_ascii (String.substring a n s) = true.
Proof.
  revert a n; induction s as [|c s IH]; intros a n.
  - by rewrite substring_nil.
  - cbn [is_ascii]. intros [Hc Hs]%andb_true_iff. destruct a as [|a]; simpl.
    + destruct n as [|n]; simpl; [done|]. by rewrite Hc, IH.
    + by apply IH.
Qed.

Lemma substring_skip (x y : string) (n : nat) :
  String.substring (String.length x) n (x +:+ y) = String.substring 0 n y.
Proof. induction x as [|c x IH]; [done|]. rewrite append_cons. apply IH. Qed.

Lemma substring_0_append (x y : string) (n : nat) :
  (String.length x ≤ n)%nat →
  String.substring 0 n (x +:+ y) = x +:+ String.substring 0 (n - String.length x) y.
Proof.
  revert n; induction x as [|c x IH]; intros n Hn; simpl in Hn.
  - change (EmptyString +:+ y) with y. simpl. by rewrite Nat.sub_0_r.
  - destruct n as [|n]; [lia|]. rewrite append_cons. cbn [String.substring].
    rewrite IH by lia. by rewrite append_cons.
Qed.

Lemma string_split_at (a : nat) (s : string) :
  (a ≤ String.length s)%nat →
  ∃ s1 s2, s = s1 +:+ s2 ∧ String.length s1 = a.
Proof.
  revert a; induction s as [|c s IH]; intros a Ha; simpl in *.
  - exists EmptyString, EmptyString. split; [done | simpl; lia].
  - destruct a as [|a].
    + by exists EmptyString, (String c s).
    + destruct (IH a) as (s1 & s2 & -> & <-); [lia|].
      by exists (String c s1), s2.
Qed.

(** A window that covers an occurrence shows it. *)
Lemma occurs_at_substring (sub s : string) (i a n : nat) :
  occurs_at sub s i → (a ≤ i)%nat → (i + String.length sub ≤ a + n)%nat →
  occurs_at sub (String.substring a n s) (i - a).
Proof.
  intros (pre & post & -> & <-) Ha Hn.
  destruct (string_split_at a pre Ha) as (p1 & p2 & -> & <-).
  rewrite length_append in *.
  rewrite append_assoc, substring_skip.
  rewrite substring_0_append by lia. rewrite substring_0_append by lia.
  exists p2, (String.substring 0 (n - String.length p2 - String.length sub) post).
  split; [done | lia].
Qed.

Lemma occurs_at_append_l (x sub s : string) (i : nat) :
  occurs_at sub s i → occurs_at sub (x +:+ s) (String.length x + i).
Proof.
  intros (pre & post & -> & <-). exists (x +:+ pre), post.
  by rewrite append_assoc, length_append.
Qed.

Lemma occurs_at_append_r (sub s y : string) (i : nat) :
  occurs_at sub s i → occurs_at sub (s +:+ y) i.
Proof.
  intros (pre & post & -> & <-). exists pre, (post +:+ y).
  by rewrite !append_assoc.
Qed.

Lemma contains_empty (s : string) : contains EmptyString s = true.
Proof. unfold contains. by destruct s. Qed.

Lemma find_empty (s : string) : find s EmptyString = 0.
Proof. unfold find. by destruct s. Qed.

End PyStrMore.

(** ** More on [SearchEngine.search] *)

Section SearchEngineMore.
Import PyStr SearchEngine.
Context {SM : StrMethods}.
Implicit Types (data results : PyDict.dict string).

Lemma dict_set_fresh {V} (d : PyDict.dict V) k (v : V) :
  k ∉ d.*1 → PyDict.set k v d = d ++ [(k, v)].
Proof.
  induction d as [|[k0 v0] d IH]; simpl; [done|].
  rewrite not_elem_of_cons. intros [Hne Hnin].
  destruct (String.eqb_spec k k0); [done|]. by rewrite IH.
Qed.

(** The entry a record contributes to the results. *)
Lemma search_fold_fresh query cs data results :
  NoDup (results.*1 ++ data.*1) →
  foldl (search_item query cs) results data =
  results ++ omap (λ item, (λ s, (item.1, s)) <$> hit query cs item.2) data.
Proof.
  revert results; induction data as [|[u c] data IH]; intros results Hnd.
  - simpl. by rewrite app_nil_r.
  - cbn [foldl]. rewrite search_item_hit.
    rewrite fmap_cons in Hnd. simpl in Hnd.
    apply NoDup_app in Hnd as (Hr & Hdisj & Hd).
    apply NoDup_cons in Hd as [Hu Hd].
    assert (Hfresh : u ∉ results.*1).
    { intros Hin. apply (Hdisj u Hin). apply list_elem_of_here. }
    destruct (hit query cs c) as [s|] eqn:Hh; simpl; rewrite Hh; simpl.
    + rewrite dict_set_fresh by done. rewrite IH.
      * by rewrite <- app_assoc.
      * rewrite fmap_app. simpl. rewrite <- app_assoc. simpl.
        apply NoDup_app. split; [done|]. split; [|by apply NoDup_cons].
        intros x Hx. apply Hdisj. done.
    + apply IH. apply NoDup_app. split; [done|]. split; [|done].
      intros x Hx Hx'. apply (Hdisj x Hx). by apply list_elem_of_further.
Qed.

Lemma omap_pointwise {A B} (f g : A → option B) (l : list A) :
  (∀ x, f x = g x) → omap f l = omap g l.
Proof.
  intros Hfg. induction l as [|x l IH]; [done|].
  change (match f x with Some y => y :: omap f l | None => omap f l end
          = match g x with Some y => y :: omap g l | None => omap g l end).
  rewrite Hfg, IH. done.
Qed.

(** X1: over a dictionary, [search] returns exactly the records whose
    content contains the query, in the order of the dictionary, each with
    the snippet at its first match. *)
Theorem search_in_store_order data query cs :
  PyDict.wf data →
  search data query cs =
  omap (λ item,
          let text := folded cs item.2 in
          let q := folded cs query in
          if contains q text
          then Some (item.1, snippet item.2 (find text q) (find text q + len q))
          else None) data.
Proof.
  intros Hwf. unfold search.
  replace (if negb cs then lower query else query) with (folded cs query)
    by (unfold folded; by destruct cs).
  rewrite search_fold_fresh by done. simpl. apply omap_pointwise.
  intros [u c]. simpl. unfold hit. by destruct (contains _ _).
Qed.


Lemma hit_inv query cs content s :
  hit query cs content = Some s →
  ∃ i : nat, find_from query (folded cs content) = Some i
             ∧ s = snippet content (Z.of_nat i) (Z.of_nat i + len query).
Proof.
  unfold hit. destruct (contains query (folded cs content)) eqn:Hc; [|done].
  destruct (contains_find _ _ Hc) as (i & Hi & Hfind). rewrite Hfind.
  intros [= <-]. by exists i.
Qed.

(** The window of a snippet, once the match is known to lie inside. *)
Lemma snippet_window content (i : nat) (lq : Z) :
  0 ≤ lq → Z.of_nat i + lq ≤ len content →
  let lo := Z.max 0 (Z.of_nat i - 50) in
  let hi := Z.min (len content) (Z.of_nat i + lq + 100) in
  snippet content (Z.of_nat i) (Z.of_nat i + lq) =
    "..." +:+ String.substring (Z.to_nat lo) (Z.to_nat (hi - lo)) content +:+ "..."
  ∧ (Z.to_nat lo ≤ i)%nat
  ∧ (i + Z.to_nat lq ≤ Z.to_nat lo + Z.to_nat (hi - lo))%nat
  ∧ hi - lo ≤ lq + 150.
Proof.
  intros Hlq Hin. cbv zeta. split; [|lia].
  unfold snippet, slice, slice_bound.
  destruct (Z.ltb_spec (Z.max 0 (Z.of_nat i - 50)) 0); [lia|].
  destruct (Z.ltb_spec (Z.min (len content) (Z.of_nat i + lq + 100)) 0); [lia|].
  rewrite !Z.min_l by lia. done.
Qed.

Lemma search_elem_inv data query cs url s :
  (url, s) ∈ search data query cs →
  ∃ content (i : nat),
    (url, content) ∈ data
    ∧ find_from (folded cs query) (folded cs content) = Some i
    ∧ s = snippet content (Z.of_nat i) (Z.of_nat i + len (folded cs query)).
Proof.
  unfold search.
  replace (if negb cs then lower query else query) with (folded cs query)
    by (unfold folded; by destruct cs).
  intros Hs. apply search_fold_elem in Hs as [Hs|(content & Hin & Hhit)].
  { by apply elem_of_nil in Hs. }
  apply hit_inv in Hhit as (i & Hi & ->). by exists content, i.
Qed.

(** X2: a snippet is never longer than the query, as it was looked up,
    plus 150 characters of context and the two markers. *)
Theorem search_snippet_length data query cs url s :
  (url, s) ∈ search data query cs →
  (6 ≤ String.length s ≤ String.length (folded cs query) + 156)%nat.
Proof.
  intros Hs. apply search_elem_inv in Hs as (content & i & _ & _ & ->).
  pose proof (len_nonneg (folded cs query)) as Hq.
  pose proof (len_nonneg content) as Hc.
  unfold snippet. rewrite !length_append.
  rewrite slice_substring by lia.
  pose proof (length_substring_le
    (Z.to_nat (Z.max 0 (Z.of_nat i - 50)))
    (Z.to_nat (Z.min (len content) (Z.of_nat i + len (folded cs query) + 100)
               - Z.max 0 (Z.of_nat i - 50))) content) as Hle.
  simpl. unfold len in *. lia.
Qed.

(** The texts a search folds are ASCII, or the search is case sensitive:
    then folding goes character by character. *)
Lemma folded_window cs (content : string) (a n : nat) :
  cs = true ∨ is_ascii content = true →
  folded cs ("..." +:+ String.substring a n content +:+ "...")
  = "..." +:+ String.substring a n (folded cs content) +:+ "...".
Proof.
  unfold folded. destruct cs; [done|]. intros [?|Ha]; [done|].
  rewrite (lower_ascii content Ha), lower_ascii.
  - by rewrite !ascii_lower_append, ascii_lower_substring.
  - rewrite !is_ascii_append, is_ascii_substring by done. done.
Qed.

(** X3: a snippet shows the match it was cut around, when the search is
    case sensitive or the contents are ASCII: the query occurs in the
    snippet, under the same letter-case rule as the search. *)
Theorem search_snippet_shows_match data query cs url s :
  cs = true ∨ (∀ u c, (u, c) ∈ data → is_ascii c = true) →
  (url, s) ∈ search data query cs →
  contains (folded cs query) (folded cs s) = true.
Proof.
  intros Hcond Hs. apply search_elem_inv in Hs as (content & i & Hdata & Hi & ->).
  assert (Hcs : cs = true ∨ is_ascii content = true).
  { destruct Hcond as [?|Hd]; [by left | right; by eapply Hd]. }
  pose proof (match_inside _ _ _ Hi) as [_ Hin]. rewrite (len_folded cs content Hcs) in Hin.
  destruct (snippet_window content i (len (folded cs query)) (len_nonneg _) Hin)
    as (-> & Hlo & Hhi & _).
  apply find_from_first in Hi as [Hocc _].
  apply contains_occurs. rewrite folded_window by done.
  eexists. apply (occurs_at_append_l "..."), occurs_at_append_r.
  apply occurs_at_substring; [done | done |]. unfold len in *. lia.
Qed.

Lemma search_fold_keys_grow query cs data results url :
  url ∈ results.*1 → url ∈ (foldl (search_item query cs) results data).*1.
Proof.
  revert results; induction data as [|[u c] data IH]; intros results Hin; [done|].
  cbn [foldl]. apply IH. rewrite search_item_hit.
  destruct (hit query cs c); [|done]. apply dict_keys_set. by right.
Qed.

Lemma search_fold_key_of_hit query cs data results url content :
  (url, content) ∈ data → is_Some (hit query cs content) →
  url ∈ (foldl (search_item query cs) results data).*1.
Proof.
  revert results; induction data as [|[u c] data IH]; intros results Hin Hhit.
  - by apply elem_of_nil in Hin.
  - cbn [foldl]. apply elem_of_cons in Hin as [[= <- <-]|Hin]; [|by apply IH].
    apply search_fold_keys_grow. rewrite search_item_hit.
    destruct Hhit as [s ->]. apply dict_keys_set. by left.
Qed.

(** X4: on ASCII text, whatever a case-sensitive search finds, the search
    that ignores case finds too. *)
Theorem search_ignoring_case_finds_more data query url :
  is_ascii query = true → (∀ u c, (u, c) ∈ data → is_ascii c = true) →
  url ∈ (search data query true).*1 → url ∈ (search data query false).*1.
Proof.
  intros Hq Hd Hin. apply list_elem_of_fmap in Hin as ([u s] & -> & Hs). simpl.
  apply search_elem_inv in Hs as (content & i & Hdata & Hi & _).
  unfold search. simpl. apply (search_fold_key_of_hit _ _ _ _ _ content Hdata).
  unfold hit. simpl in *.
  apply find_from_first in Hi as [Hocc _]. apply occurs_at_ascii_lower in Hocc.
  rewrite (lower_ascii query Hq), (lower_ascii content (Hd _ _ Hdata)).
  assert (Hc : contains (ascii_lower query) (ascii_lower content) = true)
    by (apply contains_occurs; by exists i).
  rewrite Hc. by eexists.
Qed.

(** X5: the empty query matches every record, and its snippet is the
    first hundred characters of the content. *)
Theorem search_empty_query data cs :
  PyDict.wf data →
  search data EmptyString cs =
  (λ item, (item.1, "..." +:+ slice item.2 0 100 +:+ "...")) <$> data.
Proof.
  intros Hwf. unfold search.
  replace (if negb cs then lower EmptyString else EmptyString) with EmptyString
    by (destruct cs; [done | by rewrite (lower_ascii EmptyString eq_refl)]).
  rewrite search_fold_fresh by done. simpl.
  rewrite (omap_pointwise _
    (λ item, Some (item.1, "..." +:+ slice item.2 0 100 +:+ "..."))).
  { clear Hwf. induction data as [|item data IH]; [done|].
    rewrite fmap_cons, <- IH. done. }
  intros [u c]. simpl. unfold hit. rewrite contains_empty, find_empty. simpl.
  do 2 f_equal.
  unfold snippet, slice, slice_bound. simpl.
  replace (0 + len EmptyString + 100) with 100 by (unfold len; simpl; lia).
  pose proof (len_nonneg c).
  destruct (Z.ltb_spec (Z.min (len c) 100) 0); [lia|].
  f_equal. f_equal. f_equal; lia.
Qed.


End SearchEngineMore.

(** The premises of X1 to X5 hold on small corpora. *)

Section SearchEngineRuns.
Import PyStr SearchEngine.

Lemma search_in_store_order_witness :
  @search latin1 [("a", "xx Hello"); ("b", "none"); ("c", "hello yy")] "hello" false
  = [("a", "...xx Hello..."); ("c", "...hello yy...")].
Proof.
  assert (Hwf : PyDict.wf [("a", "xx Hello"); ("b", "none"); ("c", "hello yy")]).
  { unfold PyDict.wf. simpl. repeat (apply NoDup_cons; split;
      [rewrite ?elem_of_cons, ?elem_of_nil; intros H; decompose [or] H; done|]).
    apply NoDup_nil_2. }
  exact (@search_in_store_order latin1 _ "hello" false Hwf).
Defined.

Lemma search_snippet_length_witness :
  (6 ≤ String.length "...Say Hello World today..."
   ≤ String.length (@folded latin1 false "HELLO") + 156)%nat.
Proof.
  assert (Hin : ("u", "...Say Hello World today...")
                ∈ @search latin1 [("u", "Say Hello World today")] "HELLO" false)
    by (vm_compute; apply list_elem_of_here).
  exact (@search_snippet_length latin1 _ "HELLO" false "u" _ Hin).
Defined.

Lemma search_snippet_shows_match_witness :
  contains (@folded latin1 false "hello")
    (@folded latin1 false "...Say Hello World today...") = true.
Proof.
  assert (Hd : ∀ u c, (u, c) ∈ [("u", "Say Hello World today")] →
                      is_ascii c = true).
  { intros u c Hin. apply list_elem_of_singleton in Hin. by injection Hin as -> ->. }
  assert (Hin : ("u", "...Say Hello World today...")
                ∈ @search latin1 [("u", "Say Hello World today")] "hello" false)
    by (vm_compute; apply list_elem_of_here).
  exact (@search_snippet_shows_match latin1 _ "hello" false "u" _ (or_intror Hd) Hin).
Defined.

Lemma search_ignoring_case_finds_more_witness :
  "u" ∈ (@search latin1 [("u", "Say Hello World today")] "Hello" false).*1.
Proof.
  assert (Hq : is_ascii "Hello" = true) by reflexivity.
  assert (Hd : ∀ u c, (u, c) ∈ [("u", "Say Hello World today")] →
                      is_ascii c = true).
  { intros u c Hin. apply list_elem_of_singleton in Hin. by injection Hin as -> ->. }
  assert (Hin : "u" ∈ (@search latin1 [("u", "Say Hello World today")] "Hello" true).*1)
    by (vm_compute; apply list_elem_of_here).
  exact (@search_ignoring_case_finds_more latin1 _ "Hello" "u" Hq Hd Hin).
Defined.

Lemma search_empty_query_witness :
  @search latin1 [("u", "Say Hello World today")] EmptyString true
  = [("u", "...Say Hello World today...")].
Proof.
  assert (Hwf : PyDict.wf [("u", "Say Hello World today")]) by apply NoDup_singleton.
  exact (@search_empty_query latin1 _ true Hwf).
Defined.

End SearchEngineRuns.

(** ** More on [WebScraper.crawl] *)

Section CrawlRunFacts.
Import PyStr Lib WebScraper CrawlRun.
Context `{!Libraries}.
Implicit Types (self : scraper) (st : state).

(** The tasks a turn adds to the queue have a smaller rank than the task
    it took. *)
Lemma crawl_task_queue self st u d rest st' :
  crawl_task self st u d rest = Some st' →
  ∃ new, queue st' = rest ++ new
         ∧ ∀ t, t ∈ new → t.2 = d + 1 ∧ d < max_depth self.
Proof.
  intros Hstep.
  apply crawl_task_cases in Hstep
    as [(_ & _ & Eq & _)|(_ & _ & _ & _ & [(_ & Eq & _)|(html & _ & _ & _ & _ & Hq)])].
  - exists []. rewrite app_nil_r. split; [done|]. intros t Ht. by apply elem_of_nil in Ht.
  - exists []. rewrite app_nil_r. split; [done|]. intros t Ht. by apply elem_of_nil in Ht.
  - destruct Hq as [(Hlt & links & _ & Eq)|(_ & Eq)].
    + eexists. split; [exact Eq|]. intros t Ht.
      apply list_elem_of_fmap in Ht as (link & -> & _). done.
    + exists []. rewrite app_nil_r. split; [done|].
      intros t Ht. by apply elem_of_nil in Ht.
Qed.

Lemma rank_child self (t t' : string * Z) :
  t'.2 = t.2 + 1 → t.2 < max_depth self → (rank self t' < rank self t)%nat.
Proof. unfold rank. lia. Qed.

Lemma count_rank_app self n q1 q2 :
  count_rank self n (q1 ++ q2) = (count_rank self n q1 + count_rank self n q2)%nat.
Proof. unfold count_rank. by rewrite filter_app, length_app. Qed.

Lemma count_rank_cons self n t q :
  count_rank self n (t :: q) =
  ((if decide (rank self t = n) then 1 else 0) + count_rank self n q)%nat.
Proof. unfold count_rank. rewrite filter_cons. by destruct (decide _). Qed.

Lemma count_rank_below self n q :
  (∀ t, t ∈ q → (rank self t < n)%nat) → count_rank self n q = 0%nat.
Proof.
  induction q as [|t q IH]; intros Hq; [done|].
  rewrite count_rank_cons, IH.
  - destruct (decide (rank self t = n)) as [Heq|]; [|done].
    specialize (Hq t (list_elem_of_here _ _)). lia.
  - intros t' Ht'. apply Hq. by apply list_elem_of_further.
Qed.

Lemma count_rank_first self n q k :
  count_rank self n q = S k →
  ∃ pre first rest, q = pre ++ first :: rest ∧ rank self first = n
                    ∧ ∀ t, t ∈ pre → rank self t ≠ n.
Proof.
  induction q as [|t q IH]; [done|]. rewrite count_rank_cons.
  destruct (decide (rank self t = n)) as [Heq|Hne].
  - intros _. exists [], t, q. split; [done|]. split; [done|].
    intros t' Ht'. by apply elem_of_nil in Ht'.
  - simpl. intros Hc. destruct (IH Hc) as (pre & first & rest & -> & Hf & Hpre).
    exists (t :: pre), first, rest. split; [done|]. split; [done|].
    intros t' Ht'. apply elem_of_cons in Ht' as [->|Ht']; [done | by apply Hpre].
Qed.

Lemma halts_in_nil self st : queue st = [] → halts_in 0 self st.
Proof. intros Eq more. destruct more; simpl; by rewrite Eq. Qed.

Lemma halts_in_raised self st t rest :
  queue st = t :: rest → crawl_step self st = None → halts_in 1 self st.
Proof. intros Eq Hs more. simpl. by rewrite Eq, Hs. Qed.

Lemma halts_in_step self st st' t rest fuel :
  queue st = t :: rest → crawl_step self st = Some st' →
  halts_in fuel self st' → halts_in (S fuel) self st.
Proof. intros Eq Hs Hh more. simpl. rewrite Eq, Hs. apply Hh. Qed.

(** With the tasks of rank below [n] taken care of, so are the queues of
    rank at most [n], by the number of tasks of rank [n] and then the
    place of the first of them. *)
Lemma halts_by_rank self n :
  (∀ st, (∀ t, t ∈ queue st → (rank self t < n)%nat) → ∃ fuel, halts_in fuel self st) →
  ∀ st, (∀ t, t ∈ queue st → (rank self t ≤ n)%nat) → ∃ fuel, halts_in fuel self st.
Proof.
  intros Hbelow st Hb.
  remember (count_rank self n (queue st)) as k eqn:Hk. symmetry in Hk.
  revert st Hb Hk. induction k as [|k IHk]; intros st Hb Hk.
  { apply Hbelow. intros t Ht.
    destruct (decide (rank self t = n)) as [Heq|Hne]; [|specialize (Hb t Ht); lia].
    exfalso. unfold count_rank in Hk. apply length_zero_iff_nil in Hk.
    assert (t ∈ filter (λ task, rank self task = n) (queue st))
      by (by apply list_elem_of_filter).
    rewrite Hk in H0. by apply elem_of_nil in H0. }
  destruct (count_rank_first _ _ _ _ Hk) as (pre & first & rest & Eq & Hfirst & Hpre).
  revert st rest Hb Hk Eq.
  induction pre as [|h pre IHpre]; intros st rest Hb Hk Eq.
  - (* the first task of rank [n] is at the head *)
    simpl in Eq. destruct first as [u d].
    destruct (crawl_step self st) as [st'|] eqn:Hs;
      [|eexists; by eapply halts_in_raised].
    unfold crawl_step in Hs. rewrite Eq in Hs.
    destruct (crawl_task_queue _ _ _ _ _ _ Hs) as (new & Eq' & Hnew).
    assert (Hnew' : ∀ t, t ∈ new → (rank self t < n)%nat).
    { intros t Ht. destruct (Hnew t Ht). rewrite <- Hfirst.
      by apply rank_child. }
    destruct (IHk st') as [fuel Hf].
    + intros t. rewrite Eq', elem_of_app. intros [Ht|Ht].
      * apply Hb. rewrite Eq. by apply list_elem_of_further.
      * specialize (Hnew' t Ht). lia.
    + rewrite Eq', count_rank_app, (count_rank_below _ _ new Hnew').
      rewrite Eq, count_rank_cons in Hk.
      destruct (decide (rank self (u, d) = n)); [lia | done].
    + exists (S fuel). eapply halts_in_step; [done | | done].
      unfold crawl_step. by rewrite Eq.
  - (* a task of smaller rank is at the head *)
    simpl in Eq. destruct h as [u d].
    assert (Hne : rank self (u, d) ≠ n) by apply Hpre, list_elem_of_here.
    destruct (crawl_step self st) as [st'|] eqn:Hs;
      [|eexists; by eapply halts_in_raised].
    unfold crawl_step in Hs. rewrite Eq in Hs.
    destruct (crawl_task_queue _ _ _ _ _ _ Hs) as (new & Eq' & Hnew).
    assert (Hh : (rank self (u, d) ≤ n)%nat).
    { apply Hb. rewrite Eq. apply list_elem_of_here. }
    assert (Hnew' : ∀ t, t ∈ new → (rank self t < n)%nat).
    { intros t Ht. destruct (Hnew t Ht).
      pose proof (rank_child self (u, d) t). simpl in *. lia. }
    destruct (IHpre (λ t Ht, Hpre t (list_elem_of_further _ _ _ Ht))
                st' (rest ++ new)) as [fuel Hf].
    + intros t. rewrite Eq', elem_of_app. intros [Ht|Ht].
      * apply Hb. rewrite Eq. by apply list_elem_of_further.
      * specialize (Hnew' t Ht). lia.
    + rewrite Eq', count_rank_app, (count_rank_below _ _ new Hnew').
      rewrite Eq, count_rank_cons in Hk.
      destruct (decide (rank self (u, d) = n)); [done | lia].
    + rewrite Eq'. by rewrite <- app_assoc.
    + exists (S fuel). eapply halts_in_step; [done | | done].
      unfold crawl_step. by rewrite Eq.
Qed.

(** X6: [crawl] terminates, whatever the site answers and whatever the
    depth bound is: from every state there is a number of turns within
    which the loop has ended, by an empty queue or by an exception. *)
Theorem crawl_terminates self st : ∃ fuel, halts_in fuel self st.
Proof.
  assert (Hall : ∀ n st, (∀ t, t ∈ queue st → (rank self t ≤ n)%nat) →
                         ∃ fuel, halts_in fuel self st).
  { induction n as [|n IH]; intros st' Hb.
    - apply (halts_by_rank self 0); [|done].
      intros st'' Hlt. exists 0%nat. apply halts_in_nil.
      destruct (queue st'') as [|t q]; [done|].
      specialize (Hlt t (list_elem_of_here _ _)). lia.
    - apply (halts_by_rank self (S n)); [|done].
      intros st'' Hlt. apply IH. intros t Ht. specialize (Hlt t Ht). lia. }
  apply (Hall (list_sum (rank self <$> queue st))).
  intros t Ht. induction (queue st) as [|t' q IH]; [by apply elem_of_nil in Ht|].
  rewrite fmap_cons. cbn [list_sum foldr].
  apply elem_of_cons in Ht as [->|Ht]; [apply Nat.le_add_r|].
  etrans; [by apply IH | apply Nat.le_add_l].
Qed.

End CrawlRunFacts.

(** ** [WebScraper.crawl]: order, records and requests *)

Section CrawlRunInvariants.
Import PyStr Lib WebScraper CrawlRun.
Context `{!Libraries}.
Implicit Types (self : scraper) (st : state).

Lemma sorted_constant (c : Z) (l : list Z) :
  (∀ y, y ∈ l → y = c) → StronglySorted Z.le l.
Proof.
  induction l as [|a l IH]; intros Hl; constructor.
  - apply IH. intros y Hy. apply Hl. by apply list_elem_of_further.
  - apply Forall_forall. intros y Hy.
    rewrite (Hl a (list_elem_of_here _ _)), (Hl y (list_elem_of_further _ _ _ Hy)). lia.
Qed.

Lemma level_order_skip (D R : list Z) (d : Z) :
  StronglySorted Z.le (D ++ d :: R) → spread (d :: R) →
  StronglySorted Z.le (D ++ R) ∧ spread R.
Proof.
  intros Hs Hsp. apply StronglySorted_app in Hs as (Hdr & HD & HdR).
  apply StronglySorted_cons in HdR as [_ HR]. split.
  - apply StronglySorted_app_2; [|done..].
    intros x y Hx Hy. apply Hdr; [done | by apply list_elem_of_further].
  - intros x y Hx Hy. apply Hsp; by apply list_elem_of_further.
Qed.

Lemma level_order_dispatch (D R N : list Z) (d : Z) :
  StronglySorted Z.le (D ++ d :: R) → spread (d :: R) →
  (∀ y, y ∈ N → y = d + 1) →
  StronglySorted Z.le ((D ++ [d]) ++ R ++ N) ∧ spread (R ++ N).
Proof.
  intros Hs Hsp HN. apply StronglySorted_app in Hs as (Hdr & HD & HdR).
  apply StronglySorted_cons in HdR as [HdR HR]. rewrite Forall_forall in HdR.
  assert (HRd : ∀ y, y ∈ R → d ≤ y ≤ d + 1).
  { intros y Hy. split; [by apply HdR|].
    apply Hsp; [apply list_elem_of_here | by apply list_elem_of_further]. }
  split.
  - apply StronglySorted_app_2.
    + intros x y Hx Hy. apply elem_of_app in Hx as [Hx|Hx].
      * assert (x ≤ d) by (apply Hdr; [done | apply list_elem_of_here]).
        apply elem_of_app in Hy as [Hy|Hy]; [specialize (HRd y Hy); lia|].
        rewrite (HN y Hy). lia.
      * apply list_elem_of_singleton in Hx as ->.
        apply elem_of_app in Hy as [Hy|Hy]; [specialize (HRd y Hy); lia|].
        rewrite (HN y Hy). lia.
    + apply StronglySorted_app_2; [|done|].
      * intros x y Hx Hy. apply list_elem_of_singleton in Hy as ->.
        apply Hdr; [done | apply list_elem_of_here].
      * repeat constructor.
    + apply StronglySorted_app_2; [|done|by eapply sorted_constant].
      intros x y Hx Hy. rewrite (HN y Hy). specialize (HRd x Hx). lia.
  - intros x y Hx Hy.
    assert (Hin : ∀ z, z ∈ R ++ N → d ≤ z ≤ d + 1).
    { intros z Hz. apply elem_of_app in Hz as [Hz|Hz]; [by apply HRd|].
      rewrite (HN z Hz). lia. }
    pose proof (Hin x Hx). pose proof (Hin y Hy). lia.
Qed.

Lemma crawl_task_level_order self st u d rest st' :
  level_order st → queue st = (u, d) :: rest →
  crawl_task self st u d rest = Some st' → level_order st'.
Proof.
  intros [Hs Hsp] Eq Hstep. unfold level_order in *. rewrite Eq in Hs, Hsp.
  rewrite fmap_cons in Hs, Hsp. simpl in Hs, Hsp.
  destruct (crawl_task_queue _ _ _ _ _ _ Hstep) as (new & Eq' & Hnew).
  apply crawl_task_cases in Hstep
    as [(_ & _ & Eq0 & _ & _ & Ed)|(_ & _ & _ & Ed & _)].
  - rewrite Ed, Eq0. by eapply level_order_skip.
  - rewrite Ed, Eq', !fmap_app. simpl.
    apply level_order_dispatch; [done | done |].
    intros y Hy. apply list_elem_of_fmap in Hy as (t & -> & Ht).
    by destruct (Hnew t Ht).
Qed.

(** X7: the crawl is breadth-first. In every state of a run the depths of
    the tasks handed to the fetcher, followed by those of the tasks still
    queued, never decrease, and the queue holds tasks of at most two
    adjacent depths. *)
Theorem crawl_breadth_first start max self st0 st :
  new start max = Some (self, st0) → reachable self st0 st →
  StronglySorted Z.le ((dispatched st).*2 ++ (queue st).*2)
  ∧ ∀ x y, x ∈ (queue st).*2 → y ∈ (queue st).*2 → y ≤ x + 1.
Proof.
  intros Hnew. apply (reachable_invariant self st0 level_order).
  - unfold new in Hnew. destruct (urlparse start); [|done]. simpl in Hnew.
    injection Hnew as <- <-. split; simpl.
    + repeat constructor.
    + intros x y Hx Hy. apply list_elem_of_singleton in Hx, Hy. lia.
  - intros st1 u d rest st2. apply crawl_task_level_order.
Qed.

Lemma scrape_page_Some n u text :
  scrape_page n u = Some text →
  ∃ html, _get_page_content n u = Some html ∧ html ≠ EmptyString
          ∧ text = soup_stripped_text html.
Proof.
  unfold scrape_page. destruct (_get_page_content n u) as [html|]; [|done].
  destruct (truthy (Some html)) eqn:Ht; [|done].
  intros [= <-]. exists html. split; [done|]. split; [by apply truthy_Some | done].
Qed.

Lemma store_elem_of u tc (data : PyDict.dict string) k t :
  (k, t) ∈ store u tc data →
  (k, t) ∈ data ∨ (k = u ∧ tc = Some t ∧ t ≠ EmptyString).
Proof.
  unfold store. destruct tc as [text|]; [|by left].
  destruct (truthy (Some text)) eqn:Ht; [|by left].
  intros Hin. apply dict_elem_of_set in Hin as [[= -> ->]|Hin]; [|by left].
  right. split; [done|]. split; [done | by apply truthy_Some].
Qed.

Lemma store_wf u tc (data : PyDict.dict string) :
  PyDict.wf data → PyDict.wf (store u tc data).
Proof.
  unfold store. destruct tc as [text|]; [|done].
  destruct (truthy (Some text)); [by apply dict_wf_set | done].
Qed.

Lemma crawl_task_records self st u d rest st' :
  records_from_pages st → crawl_task self st u d rest = Some st' →
  records_from_pages st'.
Proof.
  intros [Hwf Hrec] Hstep.
  apply crawl_task_cases in Hstep
    as [(_ & _ & _ & Es & _)
       |(_ & _ & _ & _ & [(_ & _ & Es & _)|(html & _ & _ & _ & Es & _)])];
    unfold records_from_pages; rewrite Es; try done.
  split; [by apply store_wf|].
  intros k t Hin. apply store_elem_of in Hin as [Hin|(-> & Hsp & Hne)]; [by apply Hrec|].
  split; [done|]. apply scrape_page_Some in Hsp as (h & ? & ? & ?).
  by exists (S (requests st)), h.
Qed.

Lemma reachable_records start max self st0 st :
  new start max = Some (self, st0) → reachable self st0 st →
  records_from_pages st.
Proof.
  intros Hnew. apply reachable_invariant.
  - unfold new in Hnew. destruct (urlparse start); [|done]. simpl in Hnew.
    injection Hnew as <- <-. split; [apply NoDup_nil_2|].
    intros url text Hin. by apply elem_of_nil in Hin.
  - intros st1 u d rest st2 Hrec _. by apply crawl_task_records.
Qed.

(** X8: what [crawl] stores. In every state of a run no URL has two
    records; every record holds a text that is not empty, the stripped
    text of a body its URL answered with; and its URL belongs to the crawl
    domain and was handed to the fetcher at a depth within the bound. *)
Theorem crawl_records start max self st0 st :
  new start max = Some (self, st0) → reachable self st0 st →
  PyDict.wf (scraped_data st)
  ∧ ∀ url text, (url, text) ∈ scraped_data st →
      text ≠ EmptyString
      ∧ (∃ n html, _get_page_content n url = Some html ∧ html ≠ EmptyString
                   ∧ text = soup_stripped_text html)
      ∧ in_domain self url
      ∧ ∃ depth, (url, depth) ∈ dispatched st ∧ 0 ≤ depth ≤ max_depth self.
Proof.
  intros Hnew Hreach.
  pose proof (reachable_records _ _ _ _ _ Hnew Hreach) as Hrec.
  destruct (reachable_consistent _ _ _ _ _ Hnew Hreach) as (_ & Hd & Hv & _ & Hs).
  destruct Hrec as [Hwf Hrec]. split; [done|].
  intros url text Hin. destruct (Hrec url text Hin) as [Hne Hpage].
  split; [done|]. split; [done|].
  assert (Hk : url ∈ (scraped_data st).*1).
  { apply list_elem_of_fmap. by exists (url, text). }
  apply Hs, Hv in Hk. apply list_elem_of_fmap in Hk as ([u' depth] & -> & Hdisp).
  destruct (Hd u' depth Hdisp) as (_ & Hdom & Hdepth). split; [done|].
  by exists depth.
Qed.

Lemma reachable_trans self st0 st st' :
  reachable self st0 st → reachable self st st' → reachable self st0 st'.
Proof.
  intros H0 H1. induction H1 as [|st1 st2 H1 IH Hq Hs]; [done|].
  by eapply reachable_turn.
Qed.

Lemma crawl_task_keeps_records self st u d rest st' k t :
  consistent self st → crawl_task self st u d rest = Some st' →
  PyDict.get k (scraped_data st) = Some t →
  PyDict.get k (scraped_data st') = Some t.
Proof.
  intros (_ & _ & _ & _ & Hs) Hstep Hget.
  apply crawl_task_cases in Hstep
    as [(_ & _ & _ & Es & _)
       |(Hnv & _ & _ & _ & [(_ & _ & Es & _)|(html & _ & _ & _ & Es & _)])];
    rewrite Es; try done.
  assert (Hne : u ≠ k).
  { intros ->. apply Hnv, Hs. apply list_elem_of_fmap.
    exists (k, t). split; [done | by apply dict_get_elem_of]. }
  unfold store. destruct (scrape_page _ _) as [text|]; [|done].
  destruct (truthy (Some text)); [|done]. by rewrite dict_get_set_ne.
Qed.

(** X9: a record, once written, stays as it is for the rest of the run,
    and the visited set never loses a URL. *)
Theorem crawl_keeps_records start max self st0 st st' :
  new start max = Some (self, st0) → reachable self st0 st →
  reachable self st st' →
  (∀ url text, PyDict.get url (scraped_data st) = Some text →
               PyDict.get url (scraped_data st') = Some text)
  ∧ visited st ⊆ visited st'.
Proof.
  intros Hnew H0 H1. induction H1 as [|st1 st2 H1 [IHr IHv] Hq Hs]; [done|].
  assert (Hc : consistent self st1).
  { eapply reachable_consistent; [done|]. by eapply reachable_trans. }
  unfold crawl_step in Hs. destruct (queue st1) as [|[u d] rest] eqn:Eq; [done|].
  split.
  - intros url text Hget. eapply crawl_task_keeps_records; [done | done |].
    by apply IHr.
  - etrans; [exact IHv|].
    apply crawl_task_cases in Hs as [(_ & -> & _)|(_ & _ & -> & _)]; set_solver.
Qed.

(** X10: a task handed to the fetcher costs one request when the fetch
    gives nothing and two when it gives a page, which [scrape_page]
    requests again. *)
Theorem crawl_request_count start max self st0 st :
  new start max = Some (self, st0) → reachable self st0 st →
  (length (dispatched st) ≤ requests st ≤ 2 * length (dispatched st))%nat.
Proof.
  intros Hnew. apply (reachable_invariant self st0
    (λ st, (length (dispatched st) ≤ requests st ≤ 2 * length (dispatched st))%nat)).
  - unfold new in Hnew. destruct (urlparse start); [|done]. simpl in Hnew.
    injection Hnew as <- <-. simpl. lia.
  - intros st1 u d rest st2 Hinv _ Hstep.
    apply crawl_task_cases in Hstep
      as [(_ & _ & _ & _ & -> & ->)
         |(_ & _ & _ & -> & [(_ & _ & _ & ->)|(html & _ & _ & -> & _)])];
      rewrite ?length_app; simpl; lia.
Qed.

End CrawlRunInvariants.

(** ** More on [scrape_portal] *)

Section PortalMore.
Import PyStr Portal PortalPage.
Context {SM : StrMethods}.

Lemma lower_empty_iff (s : string) : lower s = EmptyString ↔ s = EmptyString.
Proof.
  split; [apply lower_nonempty|]. intros ->. apply (lower_ascii EmptyString eq_refl).
Qed.

Lemma flat_imap_from_ext {A B} (f g : nat → A → list B) i0 (l : list A) :
  (∀ i x, x ∈ l → f i x = g i x) → flat_imap_from f i0 l = flat_imap_from g i0 l.
Proof.
  revert i0; induction l as [|x l IH]; intros i0 Hfg; [done|].
  cbn [flat_imap_from]. rewrite Hfg by apply list_elem_of_here.
  rewrite IH; [done|]. intros i y Hy. apply Hfg. by apply list_elem_of_further.
Qed.

Lemma find_all_string_ext (p q : string → bool) (n : node) :
  (∀ s, p s = q s) → find_all_string p n = find_all_string q n.
Proof.
  intros Hpq. induction n as [cls s|name children IH] using node_ind_nested.
  - simpl. by rewrite Hpq.
  - cbn [find_all_string]. apply flat_imap_from_ext. intros i c Hc.
    rewrite Forall_forall in IH. by rewrite IH.
Qed.

(** X11: the letter case of the focus string does not matter: two focus
    strings that are equal once lowered give the same content. *)
Theorem scrape_portal_focus_case (f g : string) (soup : node) :
  lower f = lower g →
  scrape_portal_content (Some f) soup = scrape_portal_content (Some g) soup.
Proof.
  intros Hfg. unfold scrape_portal_content.
  assert (He : String.eqb f EmptyString = String.eqb g EmptyString).
  { destruct (String.eqb_spec f EmptyString) as [->|Hf],
             (String.eqb_spec g EmptyString) as [->|Hg]; try done.
    - exfalso. apply Hg. apply lower_empty_iff. rewrite <- Hfg.
      by apply lower_empty_iff.
    - exfalso. apply Hf. apply lower_empty_iff. rewrite Hfg.
      by apply lower_empty_iff. }
  rewrite He. destruct (String.eqb g EmptyString); [done|].
  unfold relevant_div_content.
  rewrite (find_all_string_ext (mentions f) (mentions g)); [done|].
  intros s. unfold mentions. by rewrite Hfg.
Qed.

Lemma concat_nonempty (sep : string) (l : list string) :
  l ≠ [] → (∀ x, x ∈ l → x ≠ EmptyString) → String.concat sep l ≠ EmptyString.
Proof.
  destruct l as [|x l]; [done|]. intros _ Hl.
  assert (Hx : x ≠ EmptyString) by apply Hl, list_elem_of_here.
  destruct x as [|c x]; [done|]. simpl. by destruct l.
Qed.

(** X12: with a focus string, every text of the targeted extraction is
    the text of a [div] of the page, and, the empty text apart, a text
    the extraction without focus returns as well. *)
Theorem scrape_portal_focus_refines (f : string) (children : list node) (t : string) :
  t ∈ scrape_portal_content (Some f) (BeautifulSoup children) →
  (∃ d, d ∈ find_all_tag "div" (BeautifulSoup children) ∧ t = get_text d)
  ∧ (t ≠ EmptyString → t ∈ scrape_portal_content None (BeautifulSoup children)).
Proof.
  set (soup := BeautifulSoup children). intros Ht.
  assert (Hd : ∃ d, d ∈ find_all_tag "div" soup ∧ t = get_text d).
  { unfold scrape_portal_content in Ht.
    destruct (String.eqb_spec f EmptyString) as [->|_].
    - apply all_div_content_spec in Ht as [_ Ht]. exact Ht.
    - apply relevant_div_content_spec in Ht as (p & d & Hp & Hc & ->).
      apply climb_Some in Hc as (k & _ & Hk & Hdiv & _).
      exists d. split; [|done]. apply list_elem_of_filter. split; [done|].
      apply descendants_spec. exists (take k p). split; [|done].
      intros Hnil. rewrite Hnil in Hk. simpl in Hk. injection Hk as <-. done. }
  split; [exact Hd|]. intros Hne. apply all_div_content_spec. by split.
Qed.

End PortalMore.

(** The premises of X11 and X12 hold on small documents; in the second
    the focus occurs in a text and in a comment. *)

Section PortalRuns.
Import PyStr Portal.

Lemma scrape_portal_focus_case_witness :
  @scrape_portal_content latin1 (Some "HELLO")
    (BeautifulSoup [Tag "div" [NavigableString Text "Hello world"]])
  = @scrape_portal_content latin1 (Some "hello")
      (BeautifulSoup [Tag "div" [NavigableString Text "Hello world"]]).
Proof.
  assert (Hl : @lower latin1 "HELLO" = @lower latin1 "hello") by reflexivity.
  exact (@scrape_portal_focus_case latin1 "HELLO" "hello" _ Hl).
Defined.

Lemma scrape_portal_focus_refines_witness :
  "Hello world" ∈ @scrape_portal_content latin1 None
    (BeautifulSoup [Tag "div" [NavigableString Text "Hello world"];
                    Tag "div" [NavigableString Comment "hello"]]).
Proof.
  assert (Hin : "Hello world" ∈ @scrape_portal_content latin1 (Some "hello")
            (BeautifulSoup [Tag "div" [NavigableString Text "Hello world"];
                            Tag "div" [NavigableString Comment "hello"]]))
    by (apply elem_of_by_test; vm_compute; reflexivity).
  assert (Hne : "Hello world" ≠ EmptyString) by discriminate.
  exact (proj2 (@scrape_portal_focus_refines latin1 "hello" _ _ Hin) Hne).
Defined.

End PortalRuns.

(** ** [scrape_portal] as a whole *)

Section PortalPageFacts.
Import PyStr Lib Portal PortalPage.
Context {SM : StrMethods} `{!Libraries}.
Variable parse : string → node.



End PortalPageFacts.

(** ** More on [OllamaWebCrawlerService] *)

Section OllamaMore.
Import PyStr Lib Ollama OllamaChat.
Context `{!Libraries}.
Implicit Types (self : service) (st : state) (table : list Row).

Lemma rows_of_other_key (u : string) table :
  rows_of u (filter (λ r, url r ≠ u) table) = [].
Proof.
  unfold rows_of. induction table as [|r table IH]; [done|].
  rewrite filter_cons. destruct (decide (url r ≠ u)) as [Hne|Heq]; [|done].
  rewrite filter_cons. by destruct (decide (url r = u)).
Qed.

Lemma rows_of_kept (u v : string) table :
  u ≠ v → rows_of u (filter (λ r, url r ≠ v) table) = rows_of u table.
Proof.
  intros Huv. unfold rows_of. induction table as [|r table IH]; [done|].
  rewrite !filter_cons. destruct (decide (url r ≠ v)) as [Hne|Heq].
  - rewrite filter_cons. destruct (decide (url r = u)); by rewrite IH.
  - destruct (decide (url r = u)) as [Hu|]; [|done].
    exfalso. apply Huv. rewrite <- Hu. by apply dec_stable.
Qed.

Lemma insert_or_replace_NoDup row table :
  NoDup (url <$> table) → NoDup (url <$> insert_or_replace row table).
Proof.
  intros Hnd. unfold insert_or_replace. rewrite fmap_app. apply NoDup_app.
  split; [|split; [|apply NoDup_singleton]].
  - eapply sublist_NoDup; [done|]. apply fmap_sublist, sublist_filter.
  - intros u Hu Hu'. apply list_elem_of_singleton in Hu'. simpl in Hu'. subst u.
    apply list_elem_of_fmap in Hu as (r & Hr & Hin).
    apply list_elem_of_filter in Hin as [Hne _]. congruence.
Qed.

(** X14: [INSERT OR REPLACE] is an upsert on the key [url]: afterwards the
    table holds under that URL the new row and nothing else, the rows of
    every other URL are as before, doing it twice changes nothing more,
    and a table with one row per URL stays so. *)
Theorem insert_or_replace_upsert row table :
  rows_of (url row) (insert_or_replace row table) = [row]
  ∧ (∀ u, u ≠ url row →
       rows_of u (insert_or_replace row table) = rows_of u table)
  ∧ insert_or_replace row (insert_or_replace row table)
    = insert_or_replace row table
  ∧ (NoDup (url <$> table) → NoDup (url <$> insert_or_replace row table)).
Proof.
  split; [|split; [|split; [|apply insert_or_replace_NoDup]]].
  - unfold insert_or_replace. unfold rows_of at 1. rewrite filter_app.
    fold (rows_of (url row) (filter (λ r, url r ≠ url row) table)).
    rewrite rows_of_other_key. simpl. rewrite filter_cons.
    by rewrite decide_True.
  - intros u Hu. unfold insert_or_replace. unfold rows_of at 1. rewrite filter_app.
    fold (rows_of u (filter (λ r, url r ≠ url row) table)).
    rewrite rows_of_kept by done. rewrite filter_cons.
    rewrite decide_False by done. by rewrite app_nil_r.
  - unfold insert_or_replace at 1 3. f_equal. unfold insert_or_replace.
    rewrite filter_app, filter_cons. rewrite decide_False by (by intros []).
    rewrite app_nil_r. rewrite list_filter_filter.
    apply list_filter_iff. intros r. tauto.
Qed.

(** What a move can do to the table. *)
Lemma crawl_step_web_pages self i st :
  web_pages (crawl_step self i st) = web_pages st
  ∨ ∃ row, web_pages (crawl_step self i st) = insert_or_replace row (web_pages st).
Proof.
  unfold crawl_step. destruct (calls st !! i) as [c|]; [|by left].
  destruct c as [u d|u d|u d html|u d html|u d links]; cbn [crawl_page_step].
  - destruct (_ || _); by left.
  - by left.
  - destruct (extract_content u html) as [row|]; [|by left]. right. by exists row.
  - by left.
  - destruct links; by left.
Qed.

(** X15: the table keeps its key through a crawl: started on a table with
    one row per URL, every schedule leaves one row per URL, and no URL the
    table had is lost. *)
Theorem crawl_keeps_key base mdl max table self st0 schedule :
  new base mdl max table = Some (self, st0) →
  NoDup (url <$> table) →
  NoDup (url <$> web_pages (run self schedule st0))
  ∧ ∀ u, stored table u → stored (web_pages (run self schedule st0)) u.
Proof.
  intros Hnew Hnd. apply (run_invariant self st0 (λ st, keyed table (web_pages st))).
  - unfold new in Hnew. destruct (urlparse base); [|done]. simpl in Hnew.
    injection Hnew as <- <-. by split.
  - intros i st [Hk Hs].
    destruct (crawl_step_web_pages self i st) as [->|[row ->]]; [done|].
    split; [by apply insert_or_replace_NoDup|].
    intros u Hu. apply stored_insert_or_replace. right. by apply Hs.
Qed.

Lemma crawl_step_accounted table0 self i st :
  accounted table0 st → accounted table0 (crawl_step self i st).
Proof.
  intros (Hr & Hc & Hv & Hs). unfold crawl_step.
  destruct (calls st !! i) as [c|] eqn:Hi; [|done].
  assert (Hci : ∀ u, requested c = Some u → u ∈ (fetched st).*1).
  { intros u. apply Hc. by eapply list_elem_of_lookup_2. }
  assert (Hleave : ∀ c' u, c' ∈ leave st i → requested c' = Some u →
            u ∈ (fetched st).*1).
  { intros c' u Hc'. apply Hc. by eapply list_elem_of_delete_inv. }
  assert (Hbecome : ∀ x, (∀ u, requested x = Some u → u ∈ (fetched st).*1) →
            ∀ c' u, c' ∈ become st i x → requested c' = Some u →
            u ∈ (fetched st).*1).
  { intros x Hx c' u Hc'. apply elem_of_become in Hc' as [->|?]; [apply Hx | by apply Hc]. }
  destruct c as [u d|u d|u d html|u d html|u d links]; cbn [crawl_page_step].
  - destruct (_ || _); (split; [done|]); (split; [|done]); simpl;
      [apply Hleave | by apply Hbecome].
  - unfold accounted. simpl. rewrite length_app, fmap_app. simpl.
    split; [lia|]. split; [|split].
    + assert (Hold : ∀ c' u', c' ∈ calls st → requested c' = Some u' →
                u' ∈ (fetched st).*1 ++ [u]).
      { intros c' u' Hc' Hq. apply elem_of_app. left. by eapply Hc. }
      destruct (requests_get (requests st) u) as [|code text].
      * intros c' u' Hc'. apply Hold. by eapply list_elem_of_delete_inv.
      * destruct (raise_for_status code).
        -- intros c' u' Hc'. apply Hold. by eapply list_elem_of_delete_inv.
        -- intros c' u' Hc' Hq. apply elem_of_become in Hc' as [->|Hc'];
             [|by eapply Hold].
           simpl in Hq. injection Hq as <-. apply elem_of_app. right.
           apply list_elem_of_here.
    + intros u' Hu'. apply elem_of_app. left. by apply Hv.
    + intros u' Hu'. destruct (Hs u' Hu'); [by left|]. right.
      apply elem_of_app. by left.
  - destruct (extract_content u html) as [row|] eqn:Hex.
    2:{ split; [done|]. split; [|done]. simpl. apply Hleave. }
    split; [done|]. split; [|split; [done|]]; simpl.
    + by apply Hbecome.
    + intros u' Hu'. apply stored_insert_or_replace in Hu' as [->|Hu']; [|by apply Hs].
      right. rewrite (extract_content_url _ _ _ Hex). by apply Hci.
  - split; [done|]. split; [|split; [|done]]; simpl.
    + destruct (_ <? _); [|apply Hleave].
      destruct (mapM _ _); [by apply Hbecome | apply Hleave].
    + intros u' Hu'. apply elem_of_union in Hu' as [Hu'|Hu']; [|by apply Hv].
      apply elem_of_singleton in Hu' as ->. by apply Hci.
  - destruct links as [|link links]; (split; [done|]); (split; [|done]); simpl.
    + apply Hleave.
    + destruct (is_valid_url _ _ _).
      * intros c' u' Hc' Hq. apply elem_of_app in Hc' as [Hc'|Hc'].
        -- by eapply (Hbecome (Submitting u d links)).
        -- apply list_elem_of_singleton in Hc' as ->. done.
      * by apply Hbecome.
Qed.

(** X16: every request of [crawl_page] is one entry of the log, and
    nothing is marked visited or added to the table that was not
    requested in this run: under every schedule the visited URLs and the
    URLs of the rows the table did not hold before are URLs that were
    fetched. *)
Theorem crawl_page_requests base mdl max table self st0 schedule :
  new base mdl max table = Some (self, st0) →
  let st := run self schedule st0 in
  requests st = length (fetched st)
  ∧ (∀ u, u ∈ visited_urls st → u ∈ (fetched st).*1)
  ∧ (∀ u, stored (web_pages st) u → stored table u ∨ u ∈ (fetched st).*1).
Proof.
  intros Hnew.
  assert (Hacc : accounted table (run self schedule st0)).
  { apply run_invariant; [|intros i st; apply crawl_step_accounted].
    unfold new in Hnew. destruct (urlparse base); [|done]. simpl in Hnew.
    injection Hnew as <- <-. unfold accounted, start_crawling. simpl.
    split; [done|]. split; [|split; [|by left]].
    - intros c u Hc. apply list_elem_of_singleton in Hc as ->. done.
    - intros u Hu. by apply not_elem_of_empty in Hu. }
  destruct Hacc as (? & _ & ? & ?). done.
Qed.

Lemma contextualize_rows self n query rows :
  r_url <$> contextualize self n query rows = url <$> rows
  ∧ r_content <$> contextualize self n query rows = content <$> rows
  ∧ length (contextualize self n query rows) = length rows.
Proof.
  revert n; induction rows as [|row rows IH]; intros n; [done|].
  cbn [contextualize]. rewrite !fmap_cons. simpl.
  destruct (IH (S n)) as (-> & -> & ->). done.
Qed.

(** X17: when no term the model gives holds a quote character,
    [semantic_search] returns one result per selected row, in table
    order: the rows are taken from the table without reordering, each has
    a content that is [LIKE] one of the terms, and for a limit that is not
    negative there are at most [limit] of them. *)
Theorem semantic_search_results self n query limit table :
  let terms := search_terms (ollama_request self n (intent_prompt query) 100) in
  existsb has_quote terms = false → 0 ≤ limit →
  ∃ rows,
    semantic_search self n query limit table = contextualize self (S n) query rows
    ∧ r_url <$> semantic_search self n query limit table = url <$> rows
    ∧ rows `sublist_of` table
    ∧ (length rows ≤ Z.to_nat limit)%nat
    ∧ Forall (λ row, ∃ term, term ∈ terms
                ∧ like ("%" +:+ term +:+ "%") (content row) = true) rows.
Proof.
  intros terms Hq Hlimit. unfold semantic_search, semantic_search_body.
  fold terms. unfold execute_select.
  assert (Hnone : ∃ rows : list Row,
            @nil result = contextualize self (S n) query rows
            ∧ r_url <$> @nil result = url <$> rows
            ∧ rows `sublist_of` table
            ∧ (length rows ≤ Z.to_nat limit)%nat
            ∧ Forall (λ row, ∃ term, term ∈ terms
                        ∧ like ("%" +:+ term +:+ "%") (content row) = true) rows).
  { exists []. simpl. split; [done|]. split; [done|].
    split; [apply sublist_nil_l|]. split; [lia | constructor]. }
  destruct terms as [|t ts] eqn:Et; [exact Hnone|].
  destruct (sqlite_integer limit); [|exact Hnone]. cbn [negb].
  rewrite Hq.
  destruct (max_or_terms <? List.length (t :: ts))%nat; [exact Hnone|].
  cbn [mbind option_bind].
  eexists. split; [done|]. split; [apply contextualize_rows|].
  unfold sql_limit. destruct (Z.ltb_spec limit 0); [lia|].
  split; [|split].
  - etrans; [apply sublist_take | apply sublist_filter].
  - apply firstn_le_length.
  - apply Forall_forall. intros row Hrow.
    apply elem_of_take in Hrow as (k & Hk & _).
    apply list_elem_of_lookup_2, list_elem_of_filter in Hk as [Hm _].
    apply existsb_exists in Hm as (term & Hin & Hlike).
    exists term. split; [by apply list_elem_of_In | done].
Qed.

(** X18: when the model gives no completion to any request,
    [interactive_chat] returns the empty string: no error text, no
    exception. *)
Theorem interactive_chat_without_model self n query table :
  (∀ k prompt max_tokens,
     unavailable (requests_post k (model self) prompt max_tokens)) →
  interactive_chat self n query table = EmptyString.
Proof.
  intros Hdown. unfold interactive_chat. by apply ollama_request_unavailable.
Qed.

End OllamaMore.

(** ** The image list, written by the crawl and read by the search *)

Section ImageList.
Import PyStr Lib Ollama.
Context `{!Libraries}.

Lemma contains_comma_cons (c : ascii) (s : string) :
  contains "," (String c s) = Ascii.eqb c "," || contains "," s.
Proof.
  unfold contains. rewrite find_from_cons. cbn [String.prefix].
  destruct (ascii_dec "," c) as [<-|Hne].
  - simpl. by destruct s.
  - destruct (Ascii.eqb_spec c ","); [congruence|]. simpl.
    by destruct (find_from "," s).
Qed.

Lemma split_no_comma (x : string) :
  contains "," x = false → split "," x = [x].
Proof.
  induction x as [|c x IH]; [done|]. rewrite contains_comma_cons.
  intros [Hc Hx]%orb_false_iff. cbn [split]. rewrite Hc, IH by done. done.
Qed.

Lemma split_at_comma (x rest : string) :
  contains "," x = false →
  split "," (x +:+ "," +:+ rest) = x :: split "," rest.
Proof.
  induction x as [|c x IH]; [done|]. rewrite contains_comma_cons.
  intros [Hc Hx]%orb_false_iff. rewrite append_cons. cbn [split].
  rewrite Hc, IH by done. done.
Qed.

(** Joining with commas and splitting at commas gives the list back, when
    no entry is empty or holds a comma. *)
Lemma split_concat (l : list string) :
  (∀ i, i ∈ l → i ≠ EmptyString ∧ contains "," i = false) →
  (if String.eqb (String.concat "," l) EmptyString then []
   else split "," (String.concat "," l)) = l.
Proof.
  induction l as [|x l IH]; intros Hl; [done|].
  destruct (Hl x (list_elem_of_here _ _)) as [Hx Hc].
  assert (Hl' : ∀ i, i ∈ l → i ≠ EmptyString ∧ contains "," i = false).
  { intros i Hi. apply Hl. by apply list_elem_of_further. }
  specialize (IH Hl').
  assert (Hne : String.concat "," (x :: l) ≠ EmptyString).
  { apply concat_nonempty; [done|]. intros i Hi. by apply Hl. }
  destruct (String.eqb_spec (String.concat "," (x :: l)) EmptyString); [done|].
  destruct l as [|y l]; [by apply split_no_comma|].
  change (String.concat "," (x :: y :: l))
    with (x +:+ "," +:+ String.concat "," (y :: l)).
  rewrite split_at_comma by done. f_equal.
  assert (Hne' : String.concat "," (y :: l) ≠ EmptyString).
  { apply concat_nonempty; [done|]. intros i Hi. by apply Hl'. }
  by destruct (String.eqb_spec (String.concat "," (y :: l)) EmptyString).
Qed.

(** X19: the image list survives the table. [extract_content] stores the
    image URLs of a page joined by commas and [semantic_search] splits
    them again; when no image URL is empty or holds a comma, the result
    carries the very list [extract_content] built. *)
Theorem images_round_trip self n query u html row imgs :
  extract_content u html = Some row →
  mapM (urljoin u)
    (omap (λ src, if truthy src then src else None) (soup_img_srcs html))
  = Some imgs →
  (∀ i, i ∈ imgs → i ≠ EmptyString ∧ contains "," i = false) →
  r_images <$> contextualize self n query [row] = [imgs].
Proof.
  intros Hex Himgs Hok. unfold extract_content in Hex. rewrite Himgs in Hex.
  simpl in Hex. injection Hex as <-. simpl. f_equal. by apply split_concat.
Qed.

End ImageList.

(** ** [LIKE] on the terms of the model *)

Section LikeFacts.
Import PyStr Lib Ollama OllamaChat.
Context `{!Libraries}.

Lemma like_any (s : string) : like "%" s = true.
Proof. induction s as [|c s IH]; [done|]. exact IH. Qed.

Lemma prefix_nil (s : string) : String.prefix EmptyString s = true.
Proof. by destruct s. Qed.

Lemma like_prefix (term s : string) :
  plain term = true →
  like (term +:+ "%") s = String.prefix (ascii_lower term) (ascii_lower s).
Proof.
  revert s. induction term as [|p term IH]; intros s Hp.
  - change (EmptyString +:+ "%") with "%"%string. rewrite like_any.
    symmetry. apply prefix_nil.
  - cbn [plain] in Hp. apply andb_true_iff in Hp as [Hw Hp].
    unfold wildcard in Hw. apply negb_true_iff, orb_false_iff in Hw as [H1 H2].
    rewrite append_cons. cbn [like]. rewrite H1.
    destruct s as [|c s]; [done|]. rewrite H2, IH by done.
    cbn [ascii_lower String.prefix orb].
    destruct (ascii_dec (lower_char p) (lower_char c)) as [->|Hne].
    + by rewrite Ascii.eqb_refl.
    + by destruct (Ascii.eqb_spec (lower_char p) (lower_char c)).
Qed.

Lemma like_percent (pattern s : string) :
  like (String "%" pattern) s
  = like pattern s
    || match s with
       | EmptyString => false
       | String _ s' => like (String "%" pattern) s'
       end.
Proof. by destruct s. Qed.

Lemma contains_prefix (sub s : string) :
  contains sub s
  = String.prefix sub s
    || match s with
       | EmptyString => false
       | String _ s' => contains sub s'
       end.
Proof.
  unfold contains. destruct s as [|c s].
  - cbn [find_from]. by destruct (String.prefix sub EmptyString).
  - rewrite find_from_cons. destruct (String.prefix sub (String c s)); [done|].
    by destruct (find_from sub s).
Qed.

(** For a term without wildcards, [LIKE '%term%'] is the substring test
    that ignores the case of ASCII letters. *)
Lemma like_contains (term s : string) :
  plain term = true →
  like ("%" +:+ term +:+ "%") s = contains (ascii_lower term) (ascii_lower s).
Proof.
  intros Hp. change ("%" +:+ term +:+ "%") with (String "%" (term +:+ "%")).
  induction s as [|c s IH].
  - rewrite like_percent, contains_prefix, like_prefix by done. done.
  - rewrite like_percent, (contains_prefix _ (ascii_lower (String c s))).
    rewrite like_prefix by done. cbn [ascii_lower]. by rewrite IH.
Qed.

Lemma elem_of_contextualize self n query rows r :
  r ∈ contextualize self n query rows →
  ∃ row, row ∈ rows ∧ r_url r = url row ∧ r_title r = title row
         ∧ r_content r = content row.
Proof.
  revert n; induction rows as [|row rows IH]; intros n; cbn [contextualize].
  - intros Hr. by apply elem_of_nil in Hr.
  - intros [->|Hr]%elem_of_cons.
    + exists row. split; [apply list_elem_of_here | done].
    + apply IH in Hr as (row' & Hin & Hrow'). exists row'.
      split; [by apply list_elem_of_further | done].
Qed.

(** X20: with terms that hold no quote character and no wildcard of
    [LIKE], every result of [semantic_search] is a row of the table whose
    content contains one of the terms, the case of ASCII letters
    ignored. *)
Theorem semantic_search_plain_terms self n query limit table :
  let terms := search_terms (ollama_request self n (intent_prompt query) 100) in
  existsb has_quote terms = false → forallb plain terms = true →
  ∀ r, r ∈ semantic_search self n query limit table →
    ∃ row term, row ∈ table ∧ term ∈ terms
      ∧ r_url r = url row ∧ r_title r = title row ∧ r_content r = content row
      ∧ contains (ascii_lower term) (ascii_lower (content row)) = true.
Proof.
  intros terms Hq Hp r. unfold semantic_search, semantic_search_body.
  fold terms. unfold execute_select.
  assert (Hnone : r ∈ @nil result →
            ∃ row term, row ∈ table ∧ term ∈ terms
              ∧ r_url r = url row ∧ r_title r = title row
              ∧ r_content r = content row
              ∧ contains (ascii_lower term) (ascii_lower (content row)) = true).
  { intros Hr. by apply elem_of_nil in Hr. }
  destruct terms as [|t ts] eqn:Et; [exact Hnone|].
  destruct (sqlite_integer limit); [|exact Hnone]. cbn [negb].
  rewrite Hq.
  destruct (max_or_terms <? List.length (t :: ts))%nat; [exact Hnone|].
  cbn [mbind option_bind]. intros Hr.
  apply elem_of_contextualize in Hr as (row & Hrow & Hu & Ht & Hc).
  assert (Hsel : row ∈ filter (λ row, existsb (λ term, like ("%" +:+ term +:+ "%")
                                                   (content row)) (t :: ts) = true)
                         table).
  { unfold sql_limit in Hrow. destruct (limit <? 0); [done|].
    apply elem_of_take in Hrow as (k & Hk & _). by eapply list_elem_of_lookup_2. }
  apply list_elem_of_filter in Hsel as [Hm Hin].
  apply existsb_exists in Hm as (term & Hterm & Hlike).
  exists row, term. split; [done|]. split; [by apply list_elem_of_In|].
  split; [done|]. split; [done|]. split; [done|].
  rewrite <- like_contains; [done|].
  rewrite forallb_forall in Hp. by apply Hp.
Qed.

End LikeFacts.

(** ** The crawl followed by the search ([main]) *)

Section CrawlThenSearch.
Import PyStr PyDict SearchEngine Lib WebScraper CrawlRun.
Context {SM : StrMethods} `{!Libraries}.

(** X21: the search over the data of a crawl. Every result is under a URL
    of the crawl domain that was visited, and its snippet is cut around
    the first match of the query in the stripped text, not empty, of a
    body that URL answered with. *)
Theorem crawl_then_search start max self st0 st query cs url s :
  new start max = Some (self, st0) → reachable self st0 st →
  (url, s) ∈ search (scraped_data st) query cs →
  in_domain self url ∧ url ∈ visited st
  ∧ ∃ (n : nat) html (i : nat),
      _get_page_content n url = Some html
      ∧ soup_stripped_text html ≠ EmptyString
      ∧ find_from (folded cs query) (folded cs (soup_stripped_text html)) = Some i
      ∧ s = snippet (soup_stripped_text html)
              (Z.of_nat i) (Z.of_nat i + len (folded cs query)).
Proof.
  intros Hnew Hreach Hs.
  destruct (reachable_records _ _ _ _ _ Hnew Hreach) as [_ Hrec].
  destruct (reachable_consistent _ _ _ _ _ Hnew Hreach) as (_ & Hd & Hv & _ & Hk).
  apply search_elem_inv in Hs as (content & i & Hin & Hfind & ->).
  destruct (Hrec url content Hin) as (Hne & n & html & Hget & _ & ->).
  assert (Hvis : url ∈ visited st).
  { apply Hk, list_elem_of_fmap. by exists (url, soup_stripped_text html). }
  split; [|split; [done|by exists n, html, i]].
  apply Hv, list_elem_of_fmap in Hvis as ([u d] & -> & Hdisp).
  by destruct (Hd u d Hdisp) as (_ & Hdom & _).
Qed.

End CrawlThenSearch.

(** ** The properties above, on the example site *)

Section MoreRuns.
Import PyStr Lib Fixture.

Lemma example_service_with_page :
  @Ollama.new example_web "http://example.com/" "llama2" 1 one_page
  = Some (example_service,
          {| Ollama.visited_urls := ∅; Ollama.web_pages := one_page;
             Ollama.calls := []; Ollama.requests := 0; Ollama.fetched := [] |}).
Proof. reflexivity. Qed.

(** The premises of X7 hold on the example site. *)
Lemma crawl_breadth_first_witness :
  StronglySorted Z.le
    ((WebScraper.dispatched
        (@WebScraper.turns example_web 3 example_scraper example_scraper_state)).*2
     ++ (WebScraper.queue
           (@WebScraper.turns example_web 3 example_scraper example_scraper_state)).*2).
Proof.
  exact (proj1 (@crawl_breadth_first example_web _ _ _ _ _
                  example_scraper_new (example_reachable 3))).
Defined.

(** The premises of X8 hold on the example site. *)
Lemma crawl_records_witness :
  PyDict.wf
    (WebScraper.scraped_data
       (@WebScraper.turns example_web 3 example_scraper example_scraper_state)).
Proof.
  exact (proj1 (@crawl_records example_web _ _ _ _ _
                  example_scraper_new (example_reachable 3))).
Defined.

(** The premises of X9 hold on the example site, between the first turn
    of the loop and the third. *)
Lemma crawl_keeps_records_witness :
  WebScraper.visited
    (@WebScraper.turns example_web 1 example_scraper example_scraper_state)
  ⊆ WebScraper.visited
      (@WebScraper.turns example_web 2 example_scraper
         (@WebScraper.turns example_web 1 example_scraper example_scraper_state)).
Proof.
  exact (proj2 (@crawl_keeps_records example_web _ _ _ _ _ _
                  example_scraper_new (example_reachable 1)
                  (turns_reachable 2 _ _ _ (WebScraper.reachable_start _ _)))).
Defined.

(** The premises of X10 hold on the example site. *)
Lemma crawl_request_count_witness :
  (length (WebScraper.dispatched
             (@WebScraper.turns example_web 3 example_scraper example_scraper_state))
   ≤ WebScraper.requests
       (@WebScraper.turns example_web 3 example_scraper example_scraper_state)
   ≤ 2 * length (WebScraper.dispatched
                   (@WebScraper.turns example_web 3 example_scraper
                      example_scraper_state)))%nat.
Proof.
  exact (@crawl_request_count example_web _ _ _ _ _
           example_scraper_new (example_reachable 3)).
Defined.

(** The premises of X15 hold for a crawl of the example site that starts
    on a table with one row. *)
Lemma crawl_keeps_key_witness :
  NoDup (url <$> Ollama.web_pages
                   (@Ollama.run example_web example_service [0; 0; 0; 0]%nat
                      {| Ollama.visited_urls := ∅; Ollama.web_pages := one_page;
                         Ollama.calls := []; Ollama.requests := 0;
                         Ollama.fetched := [] |})).
Proof.
  exact (proj1 (@crawl_keeps_key example_web _ _ _ _ _ _ [0; 0; 0; 0]%nat
                  example_service_with_page (NoDup_singleton _))).
Defined.

(** The premise of X16 holds on the example site. *)
Lemma crawl_page_requests_witness :
  Ollama.requests
    (@Ollama.run example_web example_service [0; 0; 0; 0]%nat example_service_state)
  = length (Ollama.fetched
              (@Ollama.run example_web example_service [0; 0; 0; 0]%nat
                 example_service_state)).
Proof.
  exact (proj1 (@crawl_page_requests example_web _ _ _ _ _ _ [0; 0; 0; 0]%nat
                  example_service_new)).
Defined.

(** The premises of X17 hold with a model that answers two terms. *)
Lemma semantic_search_results_witness :
  ∃ rows,
    @Ollama.semantic_search answering_web example_service 0 "greeting" 5 one_page
    = @Ollama.contextualize answering_web example_service 1 "greeting" rows
    ∧ Ollama.r_url
        <$> @Ollama.semantic_search answering_web example_service 0 "greeting" 5 one_page
      = url <$> rows
    ∧ rows `sublist_of` one_page
    ∧ (length rows ≤ Z.to_nat 5)%nat
    ∧ Forall (λ row, ∃ term, term ∈ ["Hello"; "planet"]
                ∧ Ollama.like ("%" +:+ term +:+ "%") (content row) = true) rows.
Proof.
  apply (@semantic_search_results answering_web example_service 0 "greeting" 5 one_page).
  - reflexivity.
  - lia.
Defined.

(** The premise of X18 holds when the model server is down. *)
Lemma interactive_chat_without_model_witness :
  @OllamaChat.interactive_chat dead_web example_service 0 "hello" one_page
  = EmptyString.
Proof.
  apply (@interactive_chat_without_model dead_web example_service 0 "hello" one_page).
  intros k prompt max_tokens. exact I.
Defined.

(** The premises of X19 hold on a page with two images that have a
    source. *)
Lemma images_round_trip_witness :
  Ollama.r_images
    <$> @Ollama.contextualize gallery_web example_service 0 "pictures"
          [{| url := "http://example.com/a"; content := "page a";
              title := Some "Gallery";
              images := "http://example.com/a.png,http://example.com/b.png" |}]
  = [["http://example.com/a.png"; "http://example.com/b.png"]].
Proof.
  apply (@images_round_trip gallery_web example_service 0 "pictures"
           "http://example.com/a" "<p>page a</p>").
  - reflexivity.
  - reflexivity.
  - intros i Hi. apply elem_of_cons in Hi as [-> | Hi]; [by split|].
    apply elem_of_cons in Hi as [-> | Hi]; [by split|].
    by apply elem_of_nil in Hi.
Defined.

(** The premises of X20 hold with a model that answers two terms; the row
    matches [Hello] whatever the case. *)
Lemma semantic_search_plain_terms_witness :
  ∃ row term,
    row ∈ one_page ∧ term ∈ ["Hello"; "planet"]
    ∧ "http://example.com/" = url row ∧ Some "Home" = title row
    ∧ "hello world" = content row
    ∧ contains (ascii_lower term) (ascii_lower (content row)) = true.
Proof.
  apply (@semantic_search_plain_terms answering_web example_service 0 "greeting" 5
           one_page eq_refl eq_refl
           {| Ollama.r_url := "http://example.com/"; Ollama.r_title := Some "Home";
              Ollama.r_content := "hello world"; Ollama.r_images := [];
              Ollama.r_relevance := "Hello, planet" |}).
  vm_compute. apply list_elem_of_here.
Defined.

(** The premises of X21 hold on the example site: the search for [PAGE]
    finds the page [/a]. *)
Lemma crawl_then_search_witness :
  @WebScraper.in_domain example_web example_scraper "http://example.com/a".
Proof.
  refine (proj1 (@crawl_then_search latin1 example_web _ _ _ _ _ "PAGE" false
                   "http://example.com/a" "...page a..."
                   example_scraper_new (example_reachable 3) _)).
  vm_compute. apply list_elem_of_here.
Defined.

End MoreRuns.
